(** * HTML to Google Docs formatting: the [HTMLToDocsParser] of app.py

    A shallow embedding of the export helper of [src/app.py]
    (class [HTMLToDocsParser], lines 1350-1487, and [parse_html_for_docs],
    lines 1489-1500) together with the properties its specification states.

    The class extends Python's [html.parser.HTMLParser].  The library scans
    the markup and calls back [handle_starttag], [handle_endtag] and
    [handle_data]; these three handlers, [_close_tag] and [get_docs_requests]
    are the code of the repository and are embedded here one to one.  The
    parser object is a record, every handler a function from the old object
    to the new one.  Offsets are Python integers, hence [Z]; a character
    of the text is an [ascii], and nothing below depends on the alphabet. *)

From Stdlib Require Import ZArith QArith Ascii String.
From stdpp Require Import base options list sorting strings pretty gmap.

Local Open Scope string_scope.
Local Open Scope list_scope.
Local Open Scope Z_scope.

(** ** Python strings *)

(** The one-character string ['\n']. *)
Definition nl : string := String "010"%char EmptyString.

(** [len s] is Python's [len(s)], an integer. *)
Definition len (s : string) : Z := Z.of_nat (String.length s).

(** [s.endswith(suffix)]. *)
Definition endswith (s suffix : string) : bool :=
  let n := String.length s in
  let k := String.length suffix in
  (k <=? n)%nat && String.eqb (substring (n - k) k s) suffix.

(** Truth value of a string: the empty string is falsy. *)
Definition truthy (s : string) : bool :=
  match s with EmptyString => false | String _ _ => true end.

(** Truth value of [None]-or-string. *)
Definition truthy_opt (o : option string) : bool :=
  match o with None => false | Some s => truthy s end.

(** [tag in [t1, ..., tn]]. *)
Definition tag_in (tag : string) (l : list string) : bool :=
  existsb (String.eqb tag) l.

(** ** The parser object *)

(** One element of [formatting_ranges]: the dict
    [{'type': ..., 'start': ..., 'end': ..., 'url': ...}]. *)
Record fmt_range := Fmt {
  fmt_type : string;
  fmt_start : Z;
  fmt_end : Z;
  fmt_url : option string
}.

(** The attributes of a start tag as the library passes them: a list of
    [(name, value)] pairs, the value being [None] for an attribute written
    without [=]. *)
Definition attrs_t : Type := list (string * option string).

(** The instance attributes that [__init__] creates. *)
Record HTMLToDocsParser := Parser {
  text : string;
  formatting_ranges : list fmt_range;
  current_pos : Z;
  tag_stack : list (string * Z);
  link_url : option string
}.

(** [HTMLToDocsParser()]. *)
Definition init : HTMLToDocsParser :=
  {| text := ""; formatting_ranges := []; current_pos := 0;
     tag_stack := []; link_url := None |}.

Definition set_text (p : HTMLToDocsParser) (t : string) : HTMLToDocsParser :=
  {| text := t; formatting_ranges := formatting_ranges p;
     current_pos := current_pos p; tag_stack := tag_stack p;
     link_url := link_url p |}.

Definition set_link_url (p : HTMLToDocsParser) (u : option string)
  : HTMLToDocsParser :=
  {| text := text p; formatting_ranges := formatting_ranges p;
     current_pos := current_pos p; tag_stack := tag_stack p;
     link_url := u |}.

(** [self.tag_stack.append((tag_type, len(self.text)))]. *)
Definition push_tag (p : HTMLToDocsParser) (tag_type : string)
  : HTMLToDocsParser :=
  {| text := text p; formatting_ranges := formatting_ranges p;
     current_pos := current_pos p;
     tag_stack := tag_stack p ++ [(tag_type, len (text p))];
     link_url := link_url p |}.

(** [if not self.text.endswith('\n'): self.text += '\n']. *)
Definition force_newline (p : HTMLToDocsParser) : HTMLToDocsParser :=
  if endswith (text p) nl then p else set_text p (text p +:+ nl).

(** [dict(attrs)]: a later pair for the same name replaces an earlier one. *)
Definition dict_of (attrs : attrs_t) : gmap string (option string) :=
  fold_left (fun d kv => <[kv.1 := kv.2]> d) attrs ∅.

(** [d.get(key, default)] where the stored value may itself be [None]. *)
Definition dict_get (d : gmap string (option string)) (key : string)
    (default : option string) : option string :=
  match d !! key with
  | Some v => v
  | None => default
  end.

(** ** The handlers *)

Definition handle_starttag (p : HTMLToDocsParser) (tag : string)
    (attrs : attrs_t) : HTMLToDocsParser :=
  let attrs_dict := dict_of attrs in
  if tag_in tag ["strong"; "b"] then push_tag p "bold"
  else if tag_in tag ["em"; "i"] then push_tag p "italic"
  else if String.eqb tag "u" then push_tag p "underline"
  else if String.eqb tag "a" then
    push_tag (set_link_url p (dict_get attrs_dict "href" (Some ""))) "link"
  else if String.eqb tag "h2" then push_tag p "heading2"
  else if String.eqb tag "h3" then push_tag p "heading3"
  else if String.eqb tag "br" then set_text p (text p +:+ nl)
  else if String.eqb tag "p" then
    if truthy (text p) && negb (endswith (text p) nl)
    then set_text p (text p +:+ nl) else p
  else if String.eqb tag "blockquote" then push_tag p "blockquote"
  else p.

(** The loop [for i in range(len(self.tag_stack) - 1, -1, -1)] of
    [_close_tag], up to its [break]: [rscan tag_type stack n] visits the
    indices [n-1, n-2, ..., 0] and answers the first one whose entry has
    the type looked for. *)
Fixpoint rscan (tag_type : string) (stack : list (string * Z)) (n : nat)
  : option (nat * Z) :=
  match n with
  | O => None
  | S i =>
      match stack !! i with
      | Some (t, start) =>
          if String.eqb t tag_type then Some (i, start)
          else rscan tag_type stack i
      | None => rscan tag_type stack i
      end
  end.

Definition _close_tag (p : HTMLToDocsParser) (tag_type : string)
  : HTMLToDocsParser :=
  match rscan tag_type (tag_stack p) (length (tag_stack p)) with
  | Some (i, start) =>
      let stack' := delete i (tag_stack p) in
      let end_ := len (text p) in
      {| text := text p;
         formatting_ranges :=
           if end_ >? start then
             formatting_ranges p ++
               [ {| fmt_type := tag_type; fmt_start := start; fmt_end := end_;
                    fmt_url := if String.eqb tag_type "link"
                               then link_url p else None |} ]
           else formatting_ranges p;
         current_pos := current_pos p;
         tag_stack := stack';
         link_url := link_url p |}
  | None => p
  end.

Definition handle_endtag (p : HTMLToDocsParser) (tag : string)
  : HTMLToDocsParser :=
  if tag_in tag ["strong"; "b"] then _close_tag p "bold"
  else if tag_in tag ["em"; "i"] then _close_tag p "italic"
  else if String.eqb tag "u" then _close_tag p "underline"
  else if String.eqb tag "a" then set_link_url (_close_tag p "link") None
  else if String.eqb tag "h2" then force_newline (_close_tag p "heading2")
  else if String.eqb tag "h3" then force_newline (_close_tag p "heading3")
  else if tag_in tag ["p"; "div"] then force_newline p
  else if String.eqb tag "blockquote" then
    force_newline (_close_tag p "blockquote")
  else p.

Definition handle_data (p : HTMLToDocsParser) (data : string)
  : HTMLToDocsParser :=
  set_text p (text p +:+ data).

(** ** The calls the library makes *)

(** One callback of [HTMLParser.feed].  A self-closing tag reaches the
    class as a start tag followed by an end tag (the inherited
    [handle_startendtag]); comments, declarations and processing
    instructions reach handlers the class does not override, which do
    nothing. *)
Inductive event :=
  | StartTag (tag : string) (attrs : attrs_t)
  | EndTag (tag : string)
  | Data (data : string).

Definition handle (p : HTMLToDocsParser) (e : event) : HTMLToDocsParser :=
  match e with
  | StartTag tag attrs => handle_starttag p tag attrs
  | EndTag tag => handle_endtag p tag
  | Data data => handle_data p data
  end.

(** The parser after the library has made the calls [evs] in order. *)
Definition run (p : HTMLToDocsParser) (evs : list event) : HTMLToDocsParser :=
  fold_left handle evs p.

(** ** Formatting requests *)

(** The dicts of a Google Docs [updateTextStyle] request, with the keys the
    code writes; a key the code leaves out is [None]. *)
Record rgbColor := RgbColor { red : Q; green : Q; blue : Q }.

Record fontSize := FontSize { magnitude : Z; fs_unit : string }.

Record textStyle := TextStyle {
  ts_bold : option bool;
  ts_italic : option bool;
  ts_underline : option bool;
  ts_link : option string;
  ts_foregroundColor : option rgbColor;
  ts_fontSize : option fontSize
}.

Record request := UpdateTextStyle {
  startIndex : Z;
  endIndex : Z;
  style : textStyle;
  fields : string
}.

Definition bold_style : textStyle :=
  {| ts_bold := Some true; ts_italic := None; ts_underline := None;
     ts_link := None; ts_foregroundColor := None; ts_fontSize := None |}.

Definition italic_style : textStyle :=
  {| ts_bold := None; ts_italic := Some true; ts_underline := None;
     ts_link := None; ts_foregroundColor := None; ts_fontSize := None |}.

Definition underline_style : textStyle :=
  {| ts_bold := None; ts_italic := None; ts_underline := Some true;
     ts_link := None; ts_foregroundColor := None; ts_fontSize := None |}.

Definition link_style (url : string) : textStyle :=
  {| ts_bold := None; ts_italic := None; ts_underline := None;
     ts_link := Some url;
     ts_foregroundColor :=
       Some {| red := 0; green := 1 # 2; blue := 1 # 2 |};
     ts_fontSize := None |}.

Definition heading_style (points : Z) : textStyle :=
  {| ts_bold := Some true; ts_italic := None; ts_underline := None;
     ts_link := None; ts_foregroundColor := None;
     ts_fontSize := Some {| magnitude := points; fs_unit := "PT" |} |}.

(** The body of the loop of [get_docs_requests]: what one element [fmt] of
    [formatting_ranges] appends to [requests]. *)
Definition docs_request_step (start_index : Z) (requests : list request)
    (fmt : fmt_range) : list request :=
  let start := start_index + fmt_start fmt in
  let end_ := start_index + fmt_end fmt in
  if String.eqb (fmt_type fmt) "bold" then
    requests ++ [UpdateTextStyle start end_ bold_style "bold"]
  else if String.eqb (fmt_type fmt) "italic" then
    requests ++ [UpdateTextStyle start end_ italic_style "italic"]
  else if String.eqb (fmt_type fmt) "underline" then
    requests ++ [UpdateTextStyle start end_ underline_style "underline"]
  else if String.eqb (fmt_type fmt) "link" && truthy_opt (fmt_url fmt) then
    (* here [fmt_url fmt] is a string that is not empty *)
    requests ++
      [UpdateTextStyle start end_ (link_style (default "" (fmt_url fmt)))
         "link,foregroundColor"]
  else if String.eqb (fmt_type fmt) "heading2" then
    requests ++ [UpdateTextStyle start end_ (heading_style 16) "bold,fontSize"]
  else if String.eqb (fmt_type fmt) "heading3" then
    requests ++ [UpdateTextStyle start end_ (heading_style 14) "bold,fontSize"]
  else requests.

(** The loop over a list of ranges, starting from [requests = []]. *)
Definition docs_requests_of (ranges : list fmt_range) (start_index : Z)
  : list request :=
  fold_left (docs_request_step start_index) ranges [].

(** [parser.get_docs_requests(start_index)]. *)
Definition get_docs_requests (p : HTMLToDocsParser) (start_index : Z)
  : list request :=
  docs_requests_of (formatting_ranges p) start_index.

(** ** [parse_html_for_docs] *)

(** The argument [html_content]: [None] or a string. *)
Inductive html_content_t :=
  | PyNone
  | PyStr (s : string).

(** Truth value of the argument, as [if not html_content] tests it. *)
Definition content_truthy (h : html_content_t) : bool :=
  match h with PyNone => false | PyStr s => truthy s end.

(** The second component of the pair returned: the list [[]], the parser
    or [None]. *)
Inductive parser_slot :=
  | EmptyList
  | TheParser (p : HTMLToDocsParser)
  | NoParser.

Section ParseHtmlForDocs.

(** [feed_calls s] is the sequence of handler calls that
    [HTMLParser.feed(s)] makes, or [None] when it raises. *)
Variable feed_calls : string → option (list event).

Definition parse_html_for_docs (html_content : html_content_t)
  : option string * parser_slot :=
  if negb (content_truthy html_content) then (None, EmptyList)
  else
    match html_content with
    | PyStr s =>
        match feed_calls s with
        | Some evs =>
            let parser := run init evs in
            (Some (text parser), TheParser parser)
        | None => (None, NoParser)
        end
    | PyNone => (None, EmptyList)
    end.

End ParseHtmlForDocs.

(** The ranges held by the parser of a result; none when the second
    component is not a parser. *)
Definition result_ranges (res : option string * parser_slot)
  : list fmt_range :=
  match res.2 with
  | TheParser p => formatting_ranges p
  | EmptyList | NoParser => []
  end.

(** ** The library's scanner on plain markup

    [html.parser] belongs to Python, not to the repository.  To state the
    examples of the specification on the strings themselves, [scan] gives
    the calls of [HTMLParser.feed] (with the default [convert_charrefs])
    on the plainest markup only: character data free of [<] and [&];
    tags [<name>], [</name>] and start tags with attributes [key=value],
    the value between double quotes, where a name is a letter followed by
    letters and digits, a key is made of letters, every attribute follows
    exactly one space, and a value has no double quote, [&], [<] or [>].
    Elements whose content the library reads in a raw-text mode are left
    out.  Everywhere else [scan] answers [None] and says nothing; the
    general theorems below do not use it, they hold for every sequence of
    calls. *)

Definition is_upper (c : ascii) : bool :=
  let n := nat_of_ascii c in ((65 <=? n) && (n <=? 90))%nat.

Definition is_letter (c : ascii) : bool :=
  let n := nat_of_ascii c in
  is_upper c || ((97 <=? n) && (n <=? 122))%nat.

Definition is_digit (c : ascii) : bool :=
  let n := nat_of_ascii c in ((48 <=? n) && (n <=? 57))%nat.

(** [c.lower()] on ASCII. *)
Definition lower (c : ascii) : ascii :=
  if is_upper c then ascii_of_nat (nat_of_ascii c + 32) else c.

(** [s + c]. *)
Definition snoc (s : string) (c : ascii) : string :=
  s +:+ String c EmptyString.

(** The double quote character, and a string between double quotes. *)
Definition dquote : ascii := "034"%char.

Definition quoted (s : string) : string :=
  String dquote (s +:+ String dquote EmptyString).

Definition raw_text_elements : list string :=
  ["script"; "style"; "textarea"; "title"; "xmp"; "iframe"; "noembed";
   "noframes"; "noscript"; "plaintext"].

Inductive mode :=
  | InData (data : string)
  | TagOpen
  | InStartName (name : string)
  | BeforeAttr (name : string) (attrs : attrs_t)
  | InAttrName (name : string) (attrs : attrs_t) (key : string)
  | AfterEq (name : string) (attrs : attrs_t) (key : string)
  | InAttrValue (name : string) (attrs : attrs_t) (key value : string)
  | AfterValue (name : string) (attrs : attrs_t)
  | EndOpen
  | InEndName (name : string).

Definition data_calls (data : string) : list event :=
  if truthy data then [Data data] else [].

Definition start_calls (name : string) (attrs : attrs_t)
  : option (mode * list event) :=
  if tag_in name raw_text_elements then None
  else Some (InData "", [StartTag name attrs]).

Definition scan_step (m : mode) (c : ascii) : option (mode * list event) :=
  match m with
  | InData data =>
      if Ascii.eqb c "<" then Some (TagOpen, data_calls data)
      else if Ascii.eqb c "&" then None
      else Some (InData (snoc data c), [])
  | TagOpen =>
      if Ascii.eqb c "/" then Some (EndOpen, [])
      else if is_letter c then Some (InStartName (snoc "" (lower c)), [])
      else None
  | InStartName name =>
      if Ascii.eqb c ">" then start_calls name []
      else if Ascii.eqb c " " then Some (BeforeAttr name [], [])
      else if is_letter c || is_digit c
      then Some (InStartName (snoc name (lower c)), [])
      else None
  | BeforeAttr name attrs =>
      if is_letter c then Some (InAttrName name attrs (snoc "" (lower c)), [])
      else None
  | InAttrName name attrs key =>
      if Ascii.eqb c "=" then Some (AfterEq name attrs key, [])
      else if is_letter c
      then Some (InAttrName name attrs (snoc key (lower c)), [])
      else None
  | AfterEq name attrs key =>
      if Ascii.eqb c dquote then Some (InAttrValue name attrs key "", [])
      else None
  | InAttrValue name attrs key value =>
      if Ascii.eqb c dquote
      then Some (AfterValue name (attrs ++ [(key, Some value)]), [])
      else if Ascii.eqb c "&" || Ascii.eqb c "<" || Ascii.eqb c ">" then None
      else Some (InAttrValue name attrs key (snoc value c), [])
  | AfterValue name attrs =>
      if Ascii.eqb c ">" then start_calls name attrs
      else if Ascii.eqb c " " then Some (BeforeAttr name attrs, [])
      else None
  | EndOpen =>
      if is_letter c then Some (InEndName (snoc "" (lower c)), [])
      else None
  | InEndName name =>
      if Ascii.eqb c ">" then Some (InData "", [EndTag name])
      else if is_letter c || is_digit c
      then Some (InEndName (snoc name (lower c)), [])
      else None
  end.

Fixpoint scan_from (m : mode) (s : string) : option (list event) :=
  match s with
  | EmptyString =>
      match m with
      | InData data => Some (data_calls data)
      | _ => None
      end
  | String c s' =>
      match scan_step m c with
      | Some (m', evs) => app evs <$> scan_from m' s'
      | None => None
      end
  end.

Definition scan (s : string) : option (list event) := scan_from (InData "") s.

(** [parse_html_for_docs] with the scanner above; it stands for the
    function of the code on the strings that [scan] accepts, the only ones
    on which it is used below. *)
Definition parse (html_content : html_content_t)
  : option string * parser_slot :=
  parse_html_for_docs scan html_content.

(** * Properties *)

(** ** Strings and lengths *)

Lemma append_cons (c : ascii) (s t : string) :
  String c s +:+ t = String c (s +:+ t).
Proof. reflexivity. Qed.

Lemma length_append (s t : string) :
  String.length (s +:+ t) = (String.length s + String.length t)%nat.
Proof. induction s as [|c s IH]; simpl; [done | by rewrite IH]. Qed.

Lemma len_append (s t : string) : len (s +:+ t) = len s + len t.
Proof. unfold len. rewrite length_append. lia. Qed.

Lemma len_nonneg (s : string) : 0 ≤ len s.
Proof. unfold len. lia. Qed.

Lemma substring_all (s : string) : substring 0 (String.length s) s = s.
Proof. induction s as [|c s IH]; simpl; [done | by rewrite IH]. Qed.

Lemma substring_skip (s t : string) (k : nat) :
  substring (String.length s) k (s +:+ t) = substring 0 k t.
Proof. induction s as [|c s IH]; simpl; [done | apply IH]. Qed.

(** [endswith] answers [true] exactly on the strings that have the suffix. *)
Lemma endswith_append (s suffix : string) :
  endswith (s +:+ suffix) suffix = true.
Proof.
  unfold endswith. rewrite length_append.
  replace (String.length s + String.length suffix - String.length suffix)%nat
    with (String.length s) by lia.
  rewrite substring_skip, substring_all, String.eqb_refl.
  rewrite andb_true_r. apply Nat.leb_le. lia.
Qed.

Lemma substring_split (s : string) (n : nat) :
  (n ≤ String.length s)%nat →
  s = substring 0 n s +:+ substring n (String.length s - n) s.
Proof.
  revert n. induction s as [|c s IH]; intros [|n] Hn; simpl in *; try done.
  - by rewrite substring_all.
  - rewrite append_cons. f_equal. apply IH. lia.
Qed.

Lemma endswith_inv (s suffix : string) :
  endswith s suffix = true → ∃ s', s = s' +:+ suffix.
Proof.
  unfold endswith. intros [Hle Heq]%andb_true_iff.
  apply Nat.leb_le in Hle. apply String.eqb_eq in Heq.
  exists (substring 0 (String.length s - String.length suffix) s).
  pose proof (substring_split s (String.length s - String.length suffix)
                ltac:(lia)) as Hs.
  replace (String.length s - (String.length s - String.length suffix))%nat
    with (String.length suffix) in Hs by lia.
  by rewrite Heq in Hs.
Qed.

(** ** The search of [_close_tag] *)

Lemma rscan_Some k st n i s :
  rscan k st n = Some (i, s) →
  (i < n)%nat ∧ st !! i = Some (k, s) ∧
  ∀ j e, (i < j < n)%nat → st !! j = Some e → e.1 ≠ k.
Proof.
  induction n as [|n IH]; simpl; [done|].
  destruct (st !! n) as [[t s']|] eqn:Hn.
  - destruct (String.eqb_spec t k) as [->|Hne].
    + intros [= <- <-]. split_and!; [lia | done | intros; lia].
    + intros (Hi & Hl & Hj)%IH. split_and!; [lia | done |].
      intros j e Hij Hje. destruct (decide (j = n)) as [->|].
      * rewrite Hn in Hje. by injection Hje as <-.
      * apply (Hj j); [lia | done].
  - intros (Hi & Hl & Hj)%IH. split_and!; [lia | done |].
    intros j e Hij Hje. destruct (decide (j = n)) as [->|].
    + by rewrite Hn in Hje.
    + apply (Hj j); [lia | done].
Qed.

Lemma rscan_None k st n :
  rscan k st n = None →
  ∀ j e, (j < n)%nat → st !! j = Some e → e.1 ≠ k.
Proof.
  induction n as [|n IH]; simpl; [intros; lia|].
  destruct (st !! n) as [[t s']|] eqn:Hn.
  - destruct (String.eqb_spec t k) as [->|Hne]; [done|].
    intros H j e Hj Hje. destruct (decide (j = n)) as [->|].
    + rewrite Hn in Hje. by injection Hje as <-.
    + apply (IH H j); [lia | done].
  - intros H j e Hj Hje. destruct (decide (j = n)) as [->|].
    + by rewrite Hn in Hje.
    + apply (IH H j); [lia | done].
Qed.

(** The entry found splits the stack: everything above it has another
    type. *)
Lemma rscan_split k st i s :
  rscan k st (length st) = Some (i, s) →
  ∃ l1 l2, st = l1 ++ (k, s) :: l2 ∧ length l1 = i ∧
           Forall (λ e, e.1 ≠ k) l2.
Proof.
  intros (Hi & Hl & Hj)%rscan_Some.
  exists (take i st), (drop (S i) st). split_and!.
  - by rewrite take_drop_middle.
  - rewrite length_take. lia.
  - apply Forall_lookup. intros j e Hje. rewrite lookup_drop in Hje.
    apply (Hj (S i + j)%nat); [|done].
    apply lookup_lt_Some in Hje. lia.
Qed.

Lemma rscan_absent k st :
  rscan k st (length st) = None → Forall (λ e, e.1 ≠ k) st.
Proof.
  intros H. apply Forall_lookup. intros j e Hje.
  apply (rscan_None _ _ _ H j); [|done]. by apply lookup_lt_Some in Hje.
Qed.

(** The range [_close_tag] appends when it finds an entry starting at
    [start]. *)
Definition closed_range (p : HTMLToDocsParser) (tag_type : string) (start : Z)
  : fmt_range :=
  {| fmt_type := tag_type; fmt_start := start; fmt_end := len (text p);
     fmt_url := if String.eqb tag_type "link" then link_url p else None |}.

(** The two outcomes of [_close_tag]: no entry of the type on the stack and
    nothing changes, or the innermost entry of the type is removed and a
    range is appended when it is not empty. *)
Lemma _close_tag_cases p k :
  (Forall (λ e, e.1 ≠ k) (tag_stack p) ∧ _close_tag p k = p) ∨
  (∃ l1 l2 s,
     tag_stack p = l1 ++ (k, s) :: l2 ∧ Forall (λ e, e.1 ≠ k) l2 ∧
     _close_tag p k =
       {| text := text p;
          formatting_ranges :=
            if len (text p) >? s
            then formatting_ranges p ++ [closed_range p k s]
            else formatting_ranges p;
          current_pos := current_pos p;
          tag_stack := l1 ++ l2;
          link_url := link_url p |}).
Proof.
  unfold _close_tag.
  destruct (rscan k (tag_stack p) (length (tag_stack p))) as [[i s]|] eqn:Hr.
  - right. destruct (rscan_split _ _ _ _ Hr) as (l1 & l2 & Hst & Hlen & Hl2).
    exists l1, l2, s. split_and!; [done..|].
    rewrite Hst at 1. rewrite <- Hlen, delete_middle. done.
  - left. split; [by apply rscan_absent | done].
Qed.

(** ** The invariant of the parser object *)

(** [r] lies in the text of [p] and is not empty. *)
Definition in_text (p : HTMLToDocsParser) (r : fmt_range) : Prop :=
  0 ≤ fmt_start r ∧ fmt_start r < fmt_end r ∧ fmt_end r ≤ len (text p).

(** The half-open intervals of [r1] and [r2] share a character. *)
Definition overlap (r1 r2 : fmt_range) : Prop :=
  fmt_start r1 < fmt_end r2 ∧ fmt_start r2 < fmt_end r1.

(** The interval of [r1] lies within the one of [r2]. *)
Definition inside (r1 r2 : fmt_range) : Prop :=
  fmt_start r2 ≤ fmt_start r1 ∧ fmt_end r1 ≤ fmt_end r2.

(** Two ranges of one type, the first emitted earlier, are apart or the
    earlier one lies within the later one. *)
Definition laminar (l : list fmt_range) : Prop :=
  ∀ i j r1 r2,
    (i < j)%nat → l !! i = Some r1 → l !! j = Some r2 →
    fmt_type r1 = fmt_type r2 →
    fmt_end r1 ≤ fmt_start r2 ∨ inside r1 r2.

Definition starts_le : relation (string * Z) := λ a b, a.2 ≤ b.2.

Record wf (p : HTMLToDocsParser) : Prop := {
  wf_stack_bounds :
    Forall (λ e : string * Z, 0 ≤ e.2 ∧ e.2 ≤ len (text p)) (tag_stack p);
  wf_stack_sorted : StronglySorted starts_le (tag_stack p);
  wf_range_bounds : Forall (in_text p) (formatting_ranges p);
  wf_pending :
    ∀ r e, r ∈ formatting_ranges p → e ∈ tag_stack p → e.1 = fmt_type r →
           e.2 ≤ fmt_start r ∨ fmt_end r ≤ e.2;
  wf_laminar : laminar (formatting_ranges p)
}.

Lemma laminar_snoc (l : list fmt_range) (r : fmt_range) :
  laminar l →
  (∀ r1, r1 ∈ l → fmt_type r1 = fmt_type r →
         fmt_end r1 ≤ fmt_start r ∨ inside r1 r) →
  laminar (l ++ [r]).
Proof.
  intros Hl Hr i j r1 r2 Hij H1 H2 Hty.
  assert (j < length (l ++ [r]))%nat as Hj by (eapply lookup_lt_Some; eauto).
  rewrite length_app in Hj. simpl in Hj.
  rewrite lookup_app_l in H1 by lia.
  destruct (decide (j < length l)%nat) as [Hlt|Hge].
  - rewrite lookup_app_l in H2 by done. exact (Hl i j r1 r2 Hij H1 H2 Hty).
  - rewrite lookup_app_r in H2 by lia.
    replace (j - length l)%nat with 0%nat in H2 by lia.
    injection H2 as <-. apply Hr; [|done].
    apply list_elem_of_lookup. eauto.
Qed.

Lemma wf_init : wf init.
Proof.
  split; simpl; try done.
  - constructor.
  - intros r e Hr. by apply elem_of_nil in Hr.
Qed.

(** The text only grows, and growing keeps the invariant. *)
Lemma wf_grow p t : wf p → len (text p) ≤ len t → wf (set_text p t).
Proof.
  intros [Hb Hs Hr Hp Hl] Hle. split; simpl; try done.
  - eapply Forall_impl; [exact Hb|]. simpl. intros e ?. lia.
  - eapply Forall_impl; [exact Hr|]. unfold in_text. simpl. intros r ?. lia.
Qed.

Lemma wf_append p data : wf p → wf (set_text p (text p +:+ data)).
Proof.
  intros Hwf. apply wf_grow; [done|].
  rewrite len_append. pose proof (len_nonneg data). lia.
Qed.

Lemma wf_set_link_url p u : wf p → wf (set_link_url p u).
Proof. intros [Hb Hs Hr Hp Hl]. by split. Qed.

Lemma wf_force_newline p : wf p → wf (force_newline p).
Proof.
  intros Hwf. unfold force_newline.
  destruct (endswith (text p) nl); [done | by apply wf_append].
Qed.

Lemma wf_push_tag p k : wf p → wf (push_tag p k).
Proof.
  intros [Hb Hs Hr Hp Hl]. split; simpl; try done.
  - apply Forall_app. split; [done|].
    apply Forall_singleton. simpl. pose proof (len_nonneg (text p)). lia.
  - apply StronglySorted_app_2; [| done | repeat constructor].
    intros a b Ha ->%list_elem_of_singleton. unfold starts_le. simpl.
    rewrite Forall_forall in Hb. by apply Hb.
  - intros r e Hre [He| ->%list_elem_of_singleton]%elem_of_app Hty.
    + by apply Hp.
    + right. simpl. rewrite Forall_forall in Hr.
      destruct (Hr r Hre) as (_ & _ & ?). done.
Qed.

Lemma wf__close_tag p k : wf p → wf (_close_tag p k).
Proof.
  intros Hwf.
  destruct (_close_tag_cases p k)
    as [[_ ->]|(l1 & l2 & s & Hst & Hl2 & ->)]; [done|].
  destruct Hwf as [Hb Hs Hr Hp Hl]. rewrite Hst in Hb, Hs, Hp.
  assert (∀ e, e ∈ l1 ++ l2 → e ∈ l1 ++ (k, s) :: l2) as Hsub.
  { intros e. rewrite !elem_of_app, elem_of_cons. tauto. }
  assert (0 ≤ s ∧ s ≤ len (text p)) as Hsb.
  { rewrite Forall_forall in Hb. apply (Hb (k, s)).
    rewrite elem_of_app, elem_of_cons. tauto. }
  assert (∀ e, e ∈ l1 ++ l2 → e.1 = k → e.2 ≤ s) as Hbelow.
  { intros e [He|He]%elem_of_app Hek.
    - apply (StronglySorted_app_1_elem_of starts_le _ _ e (k, s) Hs He).
      by left.
    - rewrite Forall_forall in Hl2. by destruct (Hl2 e He). }
  split; simpl.
  - rewrite Forall_forall in Hb |- *. intros e He. by apply Hb, Hsub.
  - apply StronglySorted_app in Hs as (H12 & H1 & H2).
    apply StronglySorted_cons in H2 as [_ H2].
    apply StronglySorted_app_2; [|done..].
    intros a b Ha Hbl. apply H12; [done | by right].
  - destruct (Z.gtb_spec (len (text p)) s) as [Hgt|Hle]; [|done].
    apply Forall_app. split; [done|].
    apply Forall_singleton. unfold in_text. simpl. lia.
  - intros r e Hre He Hty.
    destruct (Z.gtb_spec (len (text p)) s) as [Hgt|Hle];
      [|by apply Hp; [|apply Hsub|]].
    apply elem_of_app in Hre as [Hre| ->%list_elem_of_singleton].
    + by apply Hp; [|apply Hsub|].
    + left. simpl in *. by apply Hbelow.
  - destruct (Z.gtb_spec (len (text p)) s) as [Hgt|Hle]; [|done].
    apply laminar_snoc; [done|]. simpl. intros r1 Hr1 Hty.
    rewrite Forall_forall in Hr. destruct (Hr r1 Hr1) as (? & ? & ?).
    destruct (Hp r1 (k, s)) as [?|?]; [done | | done | |].
    + rewrite elem_of_app, elem_of_cons. tauto.
    + right. unfold inside. simpl in *. lia.
    + left. simpl in *. lia.
Qed.

Lemma wf_handle_starttag p tag attrs : wf p → wf (handle_starttag p tag attrs).
Proof.
  intros Hwf. unfold handle_starttag.
  repeat case_match; eauto using wf_push_tag, wf_set_link_url, wf_append.
Qed.

Lemma wf_handle_endtag p tag : wf p → wf (handle_endtag p tag).
Proof.
  intros Hwf. unfold handle_endtag.
  repeat case_match;
    eauto using wf__close_tag, wf_set_link_url, wf_force_newline.
Qed.

Lemma wf_handle p e : wf p → wf (handle p e).
Proof.
  destruct e; simpl;
    eauto using wf_handle_starttag, wf_handle_endtag, wf_append.
Qed.

Lemma wf_run p evs : wf p → wf (run p evs).
Proof.
  revert p. induction evs as [|e evs IH]; intros p Hwf; simpl; [done|].
  apply IH. by apply wf_handle.
Qed.

(** ** The innermost pending entry of a type *)

(** The start offset of the entry of type [k] nearest to the top of the
    stack, if there is one: what the search of [_close_tag] finds. *)
Fixpoint innermost (k : string) (st : list (string * Z)) : option Z :=
  match st with
  | [] => None
  | (t, s) :: st' =>
      match innermost k st' with
      | Some s' => Some s'
      | None => if String.eqb t k then Some s else None
      end
  end.

Lemma innermost_absent k st :
  Forall (λ e, e.1 ≠ k) st → innermost k st = None.
Proof.
  induction 1 as [|[t s] st Ht _ IH]; simpl; [done|].
  rewrite IH. simpl in Ht. by destruct (String.eqb_spec t k).
Qed.

Lemma innermost_app k l1 l2 :
  innermost k (l1 ++ l2) =
  match innermost k l2 with
  | Some s => Some s
  | None => innermost k l1
  end.
Proof.
  induction l1 as [|[t s] l1 IH]; simpl.
  - by destruct (innermost k l2).
  - rewrite IH. by destruct (innermost k l2).
Qed.

Lemma innermost_found k l1 s l2 :
  Forall (λ e, e.1 ≠ k) l2 → innermost k (l1 ++ (k, s) :: l2) = Some s.
Proof.
  intros Hl2. rewrite innermost_app. simpl.
  by rewrite (innermost_absent _ _ Hl2), String.eqb_refl.
Qed.

Lemma innermost_remove_other k l1 e l2 :
  e.1 ≠ k → innermost k (l1 ++ e :: l2) = innermost k (l1 ++ l2).
Proof.
  intros He. rewrite !innermost_app. destruct e as [t s]. simpl in *.
  destruct (innermost k l2); [done|].
  by destruct (String.eqb_spec t k).
Qed.

Lemma innermost_push k st t s :
  innermost k (st ++ [(t, s)]) =
  if String.eqb t k then Some s else innermost k st.
Proof. rewrite innermost_app. simpl. by destruct (String.eqb t k). Qed.

(** [innermost] is the search that the code runs. *)
Lemma rscan_innermost k st :
  snd <$> rscan k st (length st) = innermost k st.
Proof.
  destruct (rscan k st (length st)) as [[i s]|] eqn:Hr; simpl.
  - destruct (rscan_split _ _ _ _ Hr) as (l1 & l2 & -> & _ & Hl2).
    by rewrite innermost_found.
  - by rewrite innermost_absent by by apply rscan_absent.
Qed.

Lemma _close_tag_text p k : text (_close_tag p k) = text p.
Proof.
  by destruct (_close_tag_cases p k) as [[_ ->]|(? & ? & ? & _ & _ & ->)].
Qed.

Lemma _close_tag_link_url p k : link_url (_close_tag p k) = link_url p.
Proof.
  by destruct (_close_tag_cases p k) as [[_ ->]|(? & ? & ? & _ & _ & ->)].
Qed.

Lemma _close_tag_ranges p k :
  formatting_ranges (_close_tag p k) =
  match innermost k (tag_stack p) with
  | Some s =>
      if len (text p) >? s
      then formatting_ranges p ++ [closed_range p k s]
      else formatting_ranges p
  | None => formatting_ranges p
  end.
Proof.
  destruct (_close_tag_cases p k)
    as [[Hno ->]|(l1 & l2 & s & Hst & Hl2 & ->)]; simpl.
  - by rewrite innermost_absent.
  - by rewrite Hst, innermost_found.
Qed.

Lemma _close_tag_innermost_other p k k' :
  k ≠ k' →
  innermost k' (tag_stack (_close_tag p k)) = innermost k' (tag_stack p).
Proof.
  intros Hne. destruct (_close_tag_cases p k)
    as [[Hno ->]|(l1 & l2 & s & Hst & Hl2 & ->)]; simpl; [done|].
  by rewrite Hst, innermost_remove_other.
Qed.

Lemma force_newline_ranges p :
  formatting_ranges (force_newline p) = formatting_ranges p.
Proof. unfold force_newline. by destruct (endswith (text p) nl). Qed.

Lemma force_newline_stack p : tag_stack (force_newline p) = tag_stack p.
Proof. unfold force_newline. by destruct (endswith (text p) nl). Qed.

Lemma force_newline_link_url p : link_url (force_newline p) = link_url p.
Proof. unfold force_newline. by destruct (endswith (text p) nl). Qed.

Lemma force_newline_text p :
  text (force_newline p) =
  if endswith (text p) nl then text p else text p +:+ nl.
Proof. unfold force_newline. by destruct (endswith (text p) nl). Qed.

(** ** Events that are not link tags *)

Definition no_link_tag (e : event) : bool :=
  match e with
  | StartTag tag _ | EndTag tag => negb (String.eqb tag "a")
  | Data _ => true
  end.

Ltac tag_cases tag :=
  repeat match goal with
    | |- context [tag_in tag ?l] =>
        let H := fresh "Htag" in destruct (tag_in tag l) eqn:H
    | |- context [String.eqb tag ?t] =>
        let H := fresh "Htag" in destruct (String.eqb_spec tag t) as [H|H]
    end.

Lemma handle_keeps_link p e :
  no_link_tag e = true →
  innermost "link" (tag_stack (handle p e)) = innermost "link" (tag_stack p) ∧
  link_url (handle p e) = link_url p.
Proof.
  destruct e as [tag attrs|tag|data]; simpl; intros Hno; [| |done].
  - unfold handle_starttag. apply negb_true_iff in Hno.
    tag_cases tag; simpl; rewrite ?innermost_push; simpl; try done.
    by destruct (truthy (text p) && negb (endswith (text p) nl)).
  - unfold handle_endtag. apply negb_true_iff in Hno.
    tag_cases tag; simpl;
      rewrite ?force_newline_stack, ?force_newline_link_url,
        ?_close_tag_link_url, ?_close_tag_innermost_other by done;
      done.
Qed.

Lemma run_keeps_link p evs :
  forallb no_link_tag evs = true →
  innermost "link" (tag_stack (run p evs)) = innermost "link" (tag_stack p) ∧
  link_url (run p evs) = link_url p.
Proof.
  revert p. induction evs as [|e evs IH]; intros p; simpl; [done|].
  intros [He Hevs]%andb_true_iff.
  destruct (IH (handle p e) Hevs) as [-> ->]. by apply handle_keeps_link.
Qed.

(** ** Events that are not end tags *)

Definition no_end_tag (e : event) : bool :=
  match e with
  | EndTag _ => false
  | StartTag _ _ | Data _ => true
  end.

Lemma handle_starttag_ranges p tag attrs :
  formatting_ranges (handle_starttag p tag attrs) = formatting_ranges p.
Proof.
  unfold handle_starttag. tag_cases tag; simpl; try done.
  by destruct (truthy (text p) && negb (endswith (text p) nl)).
Qed.

Lemma run_no_end_tag_ranges p evs :
  forallb no_end_tag evs = true →
  formatting_ranges (run p evs) = formatting_ranges p.
Proof.
  revert p. induction evs as [|e evs IH]; intros p; simpl; [done|].
  intros [He Hevs]%andb_true_iff. rewrite (IH _ Hevs).
  destruct e; simpl in *; [apply handle_starttag_ranges | done | done].
Qed.

(** ** The loop of [get_docs_requests] *)

(** The ranges for which the loop appends a request. *)
Definition emits (r : fmt_range) : bool :=
  tag_in (fmt_type r) ["bold"; "italic"; "underline"; "heading2"; "heading3"]
  || (String.eqb (fmt_type r) "link" && truthy_opt (fmt_url r)).

(** The index pair of a request. *)
Definition request_range (q : request) : Z * Z := (startIndex q, endIndex q).

Lemma docs_request_step_app i reqs r :
  docs_request_step i reqs r = reqs ++ docs_request_step i [] r.
Proof.
  unfold docs_request_step.
  repeat (case_match; [done|]). by rewrite app_nil_r.
Qed.

Lemma docs_requests_fold i rs reqs :
  fold_left (docs_request_step i) rs reqs =
  reqs ++ flat_map (docs_request_step i []) rs.
Proof.
  revert reqs. induction rs as [|r rs IH]; intros reqs; simpl.
  - by rewrite app_nil_r.
  - rewrite IH, (docs_request_step_app i reqs r). by rewrite <- app_assoc.
Qed.

Lemma docs_requests_of_flat_map rs i :
  docs_requests_of rs i = flat_map (docs_request_step i []) rs.
Proof. unfold docs_requests_of. by rewrite docs_requests_fold. Qed.

(** One range yields one request carrying its shifted offsets, or none. *)
Lemma docs_request_step_emits i r :
  map request_range (docs_request_step i [] r) =
  if emits r then [(i + fmt_start r, i + fmt_end r)] else [].
Proof.
  unfold docs_request_step, emits, tag_in. simpl.
  destruct (String.eqb (fmt_type r) "bold"); [done|].
  destruct (String.eqb (fmt_type r) "italic"); [done|].
  destruct (String.eqb (fmt_type r) "underline"); [done|].
  destruct (String.eqb (fmt_type r) "link"); simpl.
  - destruct (truthy_opt (fmt_url r)); simpl.
    + by rewrite !orb_true_r.
    + destruct (String.eqb_spec (fmt_type r) "heading2"); [done|].
      by destruct (String.eqb_spec (fmt_type r) "heading3").
  - destruct (String.eqb (fmt_type r) "heading2"); [done|].
    by destruct (String.eqb (fmt_type r) "heading3").
Qed.

Lemma docs_requests_of_ranges rs i :
  map request_range (docs_requests_of rs i) =
  map (λ r, (i + fmt_start r, i + fmt_end r)) (List.filter emits rs).
Proof.
  rewrite docs_requests_of_flat_map.
  induction rs as [|r rs IH]; simpl; [done|].
  rewrite map_app, IH, docs_request_step_emits.
  by destruct (emits r).
Qed.

(** ** Results of [parse_html_for_docs] *)

(** A result that carries a parser comes from a non-empty string on which
    [feed] did not raise, and the parser is the one that ran its calls. *)
Lemma parse_html_for_docs_parser feed_calls html t p :
  parse_html_for_docs feed_calls html = (t, TheParser p) →
  ∃ evs, p = run init evs ∧ t = Some (text p).
Proof.
  unfold parse_html_for_docs.
  destruct (content_truthy html); simpl; [|done].
  destruct html as [|s]; [done|].
  destruct (feed_calls s) as [evs|]; [|done].
  intros [= <- <-]. by exists evs.
Qed.

(** * The claims of the specification *)

(** ** Ranges of one kind *)

(** No two ranges of one type overlap. *)
Definition no_same_kind_overlap (l : list fmt_range) : Prop :=
  ∀ i j r1 r2,
    i ≠ j → l !! i = Some r1 → l !! j = Some r2 →
    fmt_type r1 = fmt_type r2 → ¬ overlap r1 r2.

(** C1, as the specification states it, does not hold: on
    [<b>a<b>b</b>c</b>] the inner tag yields the bold range [1, 2) and the
    outer tag the bold range [0, 3), which contains it. *)
Lemma nested_bold_ranges_overlap :
  ∃ p, parse (PyStr "<b>a<b>b</b>c</b>") = (Some "abc", TheParser p) ∧
       formatting_ranges p = [Fmt "bold" 1 2 None; Fmt "bold" 0 3 None] ∧
       ¬ no_same_kind_overlap (formatting_ranges p).
Proof.
  eexists. split; [vm_compute; reflexivity|]. split; [reflexivity|].
  intros H. simpl in H.
  apply (H 0%nat 1%nat (Fmt "bold" 1 2 None) (Fmt "bold" 0 3 None));
    try done.
  all: unfold overlap; simpl; lia.
Qed.

(** C1, amended: whatever calls the library makes for the input, two
    ranges of the same type in the result never overlap partially: the one
    emitted first ends where the later one starts or before, or lies
    within the later one (nested tags of one kind give nested ranges).
    Ranges of different types may overlap, as the heading and the bold
    range of [<h2>a<b>b</b></h2>] do. *)
Theorem same_kind_ranges_laminar :
  (∀ feed_calls html t p,
     parse_html_for_docs feed_calls html = (t, TheParser p) →
     laminar (formatting_ranges p)) ∧
  (∃ p r1 r2,
     parse (PyStr "<h2>a<b>b</b></h2>") = (Some ("ab" +:+ nl), TheParser p) ∧
     r1 ∈ formatting_ranges p ∧ r2 ∈ formatting_ranges p ∧
     fmt_type r1 ≠ fmt_type r2 ∧ overlap r1 r2).
Proof.
  split.
  - intros feed_calls html t p (evs & -> & _)%parse_html_for_docs_parser.
    apply wf_laminar, wf_run, wf_init.
  - eexists _, (Fmt "bold" 1 2 None), (Fmt "heading2" 0 2 None).
    split; [vm_compute; reflexivity|]. simpl.
    split_and!; [set_solver | set_solver | done |].
    unfold overlap. simpl. lia.
Qed.

Lemma same_kind_ranges_laminar_witness :
  parse_html_for_docs scan (PyStr "<b>a<b>b</b>c</b>") =
    (Some "abc",
     TheParser
       {| text := "abc";
          formatting_ranges := [Fmt "bold" 1 2 None; Fmt "bold" 0 3 None];
          current_pos := 0; tag_stack := []; link_url := None |}) ∧
  laminar [Fmt "bold" 1 2 None; Fmt "bold" 0 3 None].
Proof.
  split; [vm_compute; reflexivity|].
  apply (proj1 same_kind_ranges_laminar scan (PyStr "<b>a<b>b</b>c</b>")
           (Some "abc")
           {| text := "abc";
              formatting_ranges := [Fmt "bold" 1 2 None; Fmt "bold" 0 3 None];
              current_pos := 0; tag_stack := []; link_url := None |}).
  vm_compute. reflexivity.
Defined.

(** ** Ranges lie in the text *)

(** C2: whatever calls the library makes for the input, every range of
    the result satisfies [0 <= start < end <= len(text)] for the text
    returned; and [_close_tag] appends a range only when the text has
    grown past the start of the entry it pops, so that an empty range is
    dropped, as for [<b></b>x]. *)
Theorem ranges_within_text :
  (∀ feed_calls html t p,
     parse_html_for_docs feed_calls html = (Some t, TheParser p) →
     Forall (λ r, 0 ≤ fmt_start r ∧ fmt_start r < fmt_end r ∧
                  fmt_end r ≤ len t)
       (formatting_ranges p)) ∧
  (∀ q k,
     formatting_ranges (_close_tag q k) =
     match innermost k (tag_stack q) with
     | Some start =>
         if len (text q) >? start
         then formatting_ranges q ++ [closed_range q k start]
         else formatting_ranges q
     | None => formatting_ranges q
     end) ∧
  parse (PyStr "<b></b>x") =
    (Some "x",
     TheParser {| text := "x"; formatting_ranges := []; current_pos := 0;
                  tag_stack := []; link_url := None |}).
Proof.
  split_and!.
  - intros feed_calls html t p H.
    destruct (parse_html_for_docs_parser _ _ _ _ H) as (evs & -> & [= ->]).
    apply (wf_range_bounds _ (wf_run _ evs wf_init)).
  - apply _close_tag_ranges.
  - vm_compute. reflexivity.
Qed.

Lemma ranges_within_text_witness :
  parse_html_for_docs scan (PyStr "<h2>Title</h2>Body") =
    (Some ("Title" +:+ nl +:+ "Body"),
     TheParser
       {| text := "Title" +:+ nl +:+ "Body";
          formatting_ranges := [Fmt "heading2" 0 5 None];
          current_pos := 0; tag_stack := []; link_url := None |}) ∧
  Forall (λ r, 0 ≤ fmt_start r ∧ fmt_start r < fmt_end r ∧
               fmt_end r ≤ len ("Title" +:+ nl +:+ "Body"))
    [Fmt "heading2" 0 5 None].
Proof.
  split; [vm_compute; reflexivity|].
  apply (proj1 ranges_within_text scan (PyStr "<h2>Title</h2>Body")
           ("Title" +:+ nl +:+ "Body")
           {| text := "Title" +:+ nl +:+ "Body";
              formatting_ranges := [Fmt "heading2" 0 5 None];
              current_pos := 0; tag_stack := []; link_url := None |}).
  vm_compute. reflexivity.
Defined.

(** ** Empty input *)

(** C3, as the specification states it, does not hold: for the empty
    string the text component of the result is [None], not the empty
    string. *)
Lemma empty_input_text_not_empty_string :
  (parse (PyStr "")).1 ≠ Some "" ∧ (parse PyNone).1 ≠ Some "".
Proof. split; vm_compute; discriminate. Qed.

(** C3, amended: on the empty string and on [None] the function returns
    without calling the library, and the result is the pair [(None, [])]:
    no text and an empty list, hence no ranges. *)
Theorem empty_input_result feed_calls :
  parse_html_for_docs feed_calls (PyStr "") = (None, EmptyList) ∧
  parse_html_for_docs feed_calls PyNone = (None, EmptyList) ∧
  result_ranges (parse_html_for_docs feed_calls (PyStr "")) = [] ∧
  result_ranges (parse_html_for_docs feed_calls PyNone) = [].
Proof. done. Qed.

(** ** Opening block tags *)

(** C4: [handle_starttag] separates paragraphs for [p] only.  For [p] it
    appends one newline exactly when the text is not empty and does not end
    in a newline.  For [div] it has no branch: the parser is returned as it
    was, so [a<div>b] gives the text [ab], although [handle_endtag] treats
    [div] like [p]. *)
Theorem div_start_tag_appends_nothing :
  (∀ p attrs,
     handle_starttag p "p" attrs =
     if truthy (text p) && negb (endswith (text p) nl)
     then set_text p (text p +:+ nl) else p) ∧
  (∀ p attrs, handle_starttag p "div" attrs = p) ∧
  (∀ p, handle_endtag p "div" = handle_endtag p "p") ∧
  parse (PyStr "a<p>b") =
    (Some ("a" +:+ nl +:+ "b"),
     TheParser {| text := "a" +:+ nl +:+ "b"; formatting_ranges := [];
                  current_pos := 0; tag_stack := []; link_url := None |}) ∧
  parse (PyStr "a<div>b") =
    (Some "ab",
     TheParser {| text := "ab"; formatting_ranges := []; current_pos := 0;
                  tag_stack := []; link_url := None |}).
Proof. split_and!; try done; vm_compute; reflexivity. Qed.

(** ** The current link URL *)

(** C5: the parser has one [link_url].  An opening [a] sets it to the
    [href] of the tag (the empty string when the tag has none), a closing
    [a] resets it to [None], and the range a closing [a] appends carries the
    [link_url] of that moment.  Hence, when an [a] opens on a parser [p] in
    any state (other links may be pending) and closes after calls [mid] that
    are not link tags, the range appended, if the text has grown, runs from
    the opening to the closing offset and carries the [href] of this last
    opened link.  With one link inside another, the inner range has the
    inner [href]; the outer one closes after the reset and has [None]. *)
Theorem link_url_tracking :
  (∀ p attrs,
     link_url (handle_starttag p "a" attrs) =
     dict_get (dict_of attrs) "href" (Some "")) ∧
  (∀ p url, link_url (handle_starttag p "a" [("href", Some url)]) = Some url) ∧
  (∀ p, link_url (handle_starttag p "a" []) = Some "") ∧
  (∀ p, link_url (handle_endtag p "a") = None) ∧
  (∀ p,
     formatting_ranges (handle_endtag p "a") =
     match innermost "link" (tag_stack p) with
     | Some start =>
         if len (text p) >? start
         then formatting_ranges p ++
                [Fmt "link" start (len (text p)) (link_url p)]
         else formatting_ranges p
     | None => formatting_ranges p
     end) ∧
  (∀ p attrs mid,
     forallb no_link_tag mid = true →
     let opened := handle_starttag p "a" attrs in
     let before_close := run opened mid in
     formatting_ranges (handle_endtag before_close "a") =
     if len (text before_close) >? len (text p)
     then formatting_ranges before_close ++
            [Fmt "link" (len (text p)) (len (text before_close))
               (dict_get (dict_of attrs) "href" (Some ""))]
     else formatting_ranges before_close) ∧
  parse (PyStr ("<a href=" +:+ quoted "x" +:+ ">1<a href=" +:+ quoted "y"
                +:+ ">2</a>3</a>")) =
    (Some "123",
     TheParser
       {| text := "123";
          formatting_ranges :=
            [Fmt "link" 1 2 (Some "y"); Fmt "link" 0 3 None];
          current_pos := 0; tag_stack := []; link_url := None |}).
Proof.
  assert (∀ p,
     formatting_ranges (handle_endtag p "a") =
     match innermost "link" (tag_stack p) with
     | Some start =>
         if len (text p) >? start
         then formatting_ranges p ++
                [Fmt "link" start (len (text p)) (link_url p)]
         else formatting_ranges p
     | None => formatting_ranges p
     end) as Hclose.
  { intros p. change (handle_endtag p "a")
      with (set_link_url (_close_tag p "link") None).
    simpl. apply _close_tag_ranges. }
  split_and!; [done | | done | done | exact Hclose | | vm_compute; reflexivity].
  { intros p url. change (handle_starttag p "a" [("href", Some url)])
      with (push_tag (set_link_url p
              (dict_get (dict_of [("href", Some url)]) "href" (Some "")))
              "link").
    unfold dict_get, dict_of. simpl. by rewrite lookup_insert_eq. }
  intros p attrs mid Hmid opened before_close.
  destruct (run_keeps_link opened mid Hmid) as [Hin Hurl].
  rewrite Hclose. fold before_close in Hin, Hurl. rewrite Hin, Hurl.
  unfold opened. change (handle_starttag p "a" attrs)
    with (push_tag (set_link_url p (dict_get (dict_of attrs) "href" (Some "")))
            "link").
  simpl. by rewrite innermost_push.
Qed.

Lemma link_url_tracking_witness :
  forallb no_link_tag [Data "2"; StartTag "b" []; Data "3"; EndTag "b"]
    = true ∧
  formatting_ranges
    (handle_endtag
       (run (handle_starttag
               (run init [StartTag "a" [("href", Some "x")]; Data "1"])
               "a" [("href", Some "y")])
          [Data "2"; StartTag "b" []; Data "3"; EndTag "b"])
       "a")
  = [Fmt "bold" 2 3 None; Fmt "link" 1 3 (Some "y")].
Proof.
  split; [reflexivity|].
  rewrite (proj1 (proj2 (proj2 (proj2 (proj2 (proj2 link_url_tracking)))))
             (run init [StartTag "a" [("href", Some "x")]; Data "1"])
             [("href", Some "y")]
             [Data "2"; StartTag "b" []; Data "3"; EndTag "b"] eq_refl).
  vm_compute. reflexivity.
Defined.

(** ** Closing a heading *)

(** What closing the heading [tag], of range type [k], does to [p]: the
    innermost pending [k] entry, if any, yields a range that ends at the
    length of the text before the call, and then the text gets a newline
    unless it ends in one. *)
Definition closes_heading (p : HTMLToDocsParser) (tag k : string) : Prop :=
  handle_endtag p tag = force_newline (_close_tag p k) ∧
  text (handle_endtag p tag) =
    (if endswith (text p) nl then text p else text p +:+ nl) ∧
  formatting_ranges (handle_endtag p tag) =
    match innermost k (tag_stack p) with
    | Some start =>
        if len (text p) >? start
        then formatting_ranges p ++ [Fmt k start (len (text p)) None]
        else formatting_ranges p
    | None => formatting_ranges p
    end.

Lemma closes_heading_intro p tag k :
  handle_endtag p tag = force_newline (_close_tag p k) →
  String.eqb k "link" = false →
  closes_heading p tag k.
Proof.
  intros Heq Hk. unfold closes_heading. rewrite Heq. split_and!; [done | |].
  - by rewrite force_newline_text, _close_tag_text.
  - rewrite force_newline_ranges, _close_tag_ranges.
    unfold closed_range. by rewrite Hk.
Qed.

(** C7: closing [h2] or [h3] closes the heading range at the length the
    text has before the call and only then appends a newline, unless the
    text already ends in one.  For [<h2>Title</h2>Body] the text is
    [Title], a newline, [Body], and the only range is a [heading2] range
    over the five characters of [Title]. *)
Theorem heading_close_newline_after_range :
  (∀ p, closes_heading p "h2" "heading2") ∧
  (∀ p, closes_heading p "h3" "heading3") ∧
  parse (PyStr "<h2>Title</h2>Body") =
    (Some ("Title" +:+ nl +:+ "Body"),
     TheParser
       {| text := "Title" +:+ nl +:+ "Body";
          formatting_ranges := [Fmt "heading2" 0 5 None];
          current_pos := 0; tag_stack := []; link_url := None |}) ∧
  substring 0 5 ("Title" +:+ nl +:+ "Body") = "Title".
Proof.
  split_and!; try (intros p; by apply closes_heading_intro).
  - vm_compute. reflexivity.
  - reflexivity.
Qed.

(** ** From ranges to requests *)

(** C8: [get_docs_requests] makes one request for each range of the
    parser, in order, except for the ranges it drops.  Every range
    contributes on its own: the requests are those that the ranges yield
    one after the other, their number is the number of ranges that yield
    one, and a parser with one more range has the same requests followed
    by what that range yields.  A range whose type is bold, italic,
    underline, heading2 or heading3, or a link with a URL, yields exactly
    one request; a link whose URL is [None] or the empty string yields
    none, and neither does a blockquote.  For [<a>click</a>] the text is
    [click], the link range has the empty URL and there is no request;
    with an [href] there is one. *)
Theorem one_request_per_range :
  (∀ ranges start_index,
     docs_requests_of ranges start_index =
     flat_map (docs_request_step start_index []) ranges) ∧
  (∀ r start_index,
     length (docs_request_step start_index [] r) =
     if emits r then 1%nat else 0%nat) ∧
  (∀ s e start_index,
     docs_request_step start_index [] (Fmt "link" s e None) = [] ∧
     docs_request_step start_index [] (Fmt "link" s e (Some "")) = []) ∧
  (∀ s e u start_index,
     docs_request_step start_index [] (Fmt "blockquote" s e u) = []) ∧
  (∀ s e u c start_index,
     docs_request_step start_index [] (Fmt "link" s e (Some (String c u))) =
     [UpdateTextStyle (start_index + s) (start_index + e)
        (link_style (String c u)) "link,foregroundColor"]) ∧
  (∃ p,
     parse (PyStr "<a>click</a>") = (Some "click", TheParser p) ∧
     formatting_ranges p = [Fmt "link" 0 5 (Some "")] ∧
     get_docs_requests p 1 = []) ∧
  (∀ p start_index,
     get_docs_requests p start_index =
     flat_map (docs_request_step start_index []) (formatting_ranges p)) ∧
  (∀ p start_index,
     length (get_docs_requests p start_index) =
     length (List.filter emits (formatting_ranges p))) ∧
  (∀ p r start_index,
     get_docs_requests
       {| text := text p; formatting_ranges := formatting_ranges p ++ [r];
          current_pos := current_pos p; tag_stack := tag_stack p;
          link_url := link_url p |} start_index =
     get_docs_requests p start_index ++
       docs_request_step start_index [] r) ∧
  (∀ t c st u ty s e start_index,
     get_docs_requests
       {| text := t; formatting_ranges := [Fmt ty s e None];
          current_pos := c; tag_stack := st; link_url := u |} start_index =
     if tag_in ty ["bold"; "italic"; "underline"; "heading2"; "heading3"]
     then [UpdateTextStyle (start_index + s) (start_index + e)
             (if String.eqb ty "bold" then bold_style
              else if String.eqb ty "italic" then italic_style
              else if String.eqb ty "underline" then underline_style
              else if String.eqb ty "heading2" then heading_style 16
              else heading_style 14)
             (if String.eqb ty "bold" then "bold"
              else if String.eqb ty "italic" then "italic"
              else if String.eqb ty "underline" then "underline"
              else "bold,fontSize")]
     else []) ∧
  (∃ p,
     parse (PyStr ("<a href=" +:+ quoted "u" +:+ ">click</a> <b>now</b>")) =
       (Some "click now", TheParser p) ∧
     formatting_ranges p =
       [Fmt "link" 0 5 (Some "u"); Fmt "bold" 6 9 None] ∧
     get_docs_requests p 1 =
       [UpdateTextStyle 1 6 (link_style "u") "link,foregroundColor";
        UpdateTextStyle 7 10 bold_style "bold"]).
Proof.
  split_and!; try done.
  - apply docs_requests_of_flat_map.
  - intros r i. rewrite <- (length_map request_range).
    rewrite docs_request_step_emits. by destruct (emits r).
  - eexists. split_and!; [vm_compute; reflexivity | reflexivity..].
  - intros p i. apply docs_requests_of_flat_map.
  - intros p i. unfold get_docs_requests.
    rewrite <- (length_map request_range), docs_requests_of_ranges.
    by rewrite length_map.
  - intros p r i. unfold get_docs_requests. simpl.
    rewrite !docs_requests_of_flat_map, flat_map_app. simpl.
    by rewrite app_nil_r.
  - intros t c st u ty s e i.
    unfold get_docs_requests, docs_requests_of, docs_request_step, tag_in.
    simpl.
    destruct (String.eqb ty "bold"); [done|].
    destruct (String.eqb ty "italic"); [done|].
    destruct (String.eqb ty "underline"); [done|].
    destruct (String.eqb ty "link"); simpl;
      destruct (String.eqb ty "heading2"); try done;
      by destruct (String.eqb ty "heading3").
  - eexists. split_and!; [vm_compute; reflexivity | reflexivity..].
Qed.

(** C9: [get_docs_requests] is a function of the ranges and the start
    index.  The requests follow the order of the ranges that yield one, and
    the indices of each request are the start and end of its range plus the
    start index; a range that yields none, such as one of an unknown type,
    is passed over, so there are at most as many requests as ranges.  With
    the start index 1 every range is shifted by one. *)
Theorem requests_shifted_in_order :
  (∀ ranges start_index,
     map request_range (docs_requests_of ranges start_index) =
     map (λ r, (start_index + fmt_start r, start_index + fmt_end r))
       (List.filter emits ranges)) ∧
  (∀ p,
     map request_range (get_docs_requests p 1) =
     map (λ r, (1 + fmt_start r, 1 + fmt_end r))
       (List.filter emits (formatting_ranges p))) ∧
  (∀ ranges start_index,
     (length (docs_requests_of ranges start_index) ≤ length ranges)%nat) ∧
  (∀ r start_index,
     tag_in (fmt_type r)
       ["bold"; "italic"; "underline"; "link"; "heading2"; "heading3"]
     = false →
     docs_request_step start_index [] r = []).
Proof.
  split_and!.
  - apply docs_requests_of_ranges.
  - intros p. apply docs_requests_of_ranges.
  - intros rs i. rewrite <- (length_map request_range).
    rewrite docs_requests_of_ranges, length_map. apply filter_length_le.
  - intros r i Hr. apply nil_length_inv.
    rewrite <- (length_map request_range), docs_request_step_emits.
    unfold emits, tag_in in *. simpl in *.
    repeat (apply orb_false_elim in Hr as [? Hr]).
    by repeat match goal with H : _ = false |- _ => rewrite H; clear H end.
Qed.

Lemma requests_shifted_in_order_witness :
  tag_in (fmt_type (Fmt "strike" 0 3 None))
    ["bold"; "italic"; "underline"; "link"; "heading2"; "heading3"] = false ∧
  docs_request_step 1 [] (Fmt "strike" 0 3 None) = [].
Proof.
  split; [reflexivity|].
  apply (proj2 (proj2 (proj2 requests_shifted_in_order))
           (Fmt "strike" 0 3 None) 1).
  reflexivity.
Defined.

(** ** Closing block tags *)

(** C10: a closing [p] or [div] does nothing but append a newline unless
    the text ends in one; it does not look at the stack, and on the empty
    text it appends the newline too.  For [</div>] alone the text is one
    newline and there is no range. *)
Theorem block_close_forces_newline :
  (∀ p, handle_endtag p "p" = force_newline p) ∧
  (∀ p, handle_endtag p "div" = force_newline p) ∧
  (∀ p, text (force_newline p) =
        if endswith (text p) nl then text p else text p +:+ nl) ∧
  (∀ p, formatting_ranges (force_newline p) = formatting_ranges p ∧
        tag_stack (force_newline p) = tag_stack p) ∧
  (∀ p, text (handle_endtag (set_text p "") "div") = nl) ∧
  (∀ p, endswith (text (handle_endtag p "div")) nl = true) ∧
  parse (PyStr "</div>") =
    (Some nl,
     TheParser {| text := nl; formatting_ranges := []; current_pos := 0;
                  tag_stack := []; link_url := None |}).
Proof.
  split_and!; try done.
  - apply force_newline_text.
  - intros p. by rewrite force_newline_ranges, force_newline_stack.
  - intros p. change (handle_endtag p "div") with (force_newline p).
    rewrite force_newline_text.
    destruct (endswith (text p) nl) eqn:He; [done | apply endswith_append].
Qed.

(** * Further properties of the parser *)

(** ** Strings *)

Lemma append_assoc (a b c : string) : (a +:+ b) +:+ c = a +:+ (b +:+ c).
Proof. induction a as [|x a IH]; [done|]. by rewrite !append_cons, IH. Qed.

Lemma append_nil_r (a : string) : a +:+ "" = a.
Proof. induction a as [|x a IH]; [done|]. by rewrite append_cons, IH. Qed.

Lemma truthy_len_pos (s : string) : truthy s = (len s >? 0).
Proof. destruct s; [done|]. unfold len. simpl. symmetry. apply Z.gtb_gt. lia. Qed.

(** ** Running the calls in two parts *)

Lemma run_app p evs1 evs2 : run p (evs1 ++ evs2) = run (run p evs1) evs2.
Proof. apply fold_left_app. Qed.

(** ** The kinds of ranges *)

(** The range type that the tag [tag] opens and closes, if it has one. *)
Definition range_kind (tag : string) : option string :=
  if tag_in tag ["strong"; "b"] then Some "bold"
  else if tag_in tag ["em"; "i"] then Some "italic"
  else if String.eqb tag "u" then Some "underline"
  else if String.eqb tag "a" then Some "link"
  else if String.eqb tag "h2" then Some "heading2"
  else if String.eqb tag "h3" then Some "heading3"
  else if String.eqb tag "blockquote" then Some "blockquote"
  else None.

(** The seven range types. *)
Definition kinds : list string :=
  ["bold"; "italic"; "underline"; "link"; "heading2"; "heading3";
   "blockquote"].

Lemma range_kind_kinds tag k : range_kind tag = Some k → k ∈ kinds.
Proof.
  unfold range_kind, kinds. repeat case_match; intros [= <-]; set_solver.
Qed.

(** A tag with a range type pushes an entry at the current length. *)
Lemma handle_starttag_push p tag attrs k :
  range_kind tag = Some k →
  tag_stack (handle_starttag p tag attrs) = tag_stack p ++ [(k, len (text p))] ∧
  text (handle_starttag p tag attrs) = text p.
Proof.
  unfold range_kind, handle_starttag.
  destruct (tag_in tag ["strong"; "b"]); [by intros [= <-]|].
  destruct (tag_in tag ["em"; "i"]); [by intros [= <-]|].
  destruct (String.eqb tag "u"); [by intros [= <-]|].
  destruct (String.eqb tag "a"); [by intros [= <-]|].
  destruct (String.eqb tag "h2"); [by intros [= <-]|].
  destruct (String.eqb tag "h3"); [by intros [= <-]|].
  destruct (String.eqb_spec tag "blockquote") as [->|]; [by intros [= <-]|].
  done.
Qed.

(** A tag without a range type leaves the stack alone when it opens. *)
Lemma handle_starttag_no_push p tag attrs :
  range_kind tag = None →
  tag_stack (handle_starttag p tag attrs) = tag_stack p.
Proof.
  unfold range_kind, handle_starttag.
  destruct (tag_in tag ["strong"; "b"]); [done|].
  destruct (tag_in tag ["em"; "i"]); [done|].
  destruct (String.eqb tag "u"); [done|].
  destruct (String.eqb tag "a"); [done|].
  destruct (String.eqb tag "h2"); [done|].
  destruct (String.eqb tag "h3"); [done|].
  destruct (String.eqb_spec tag "blockquote") as [->|]; [done|].
  intros _. destruct (String.eqb tag "br"); [done|].
  destruct (String.eqb tag "p"); [|done].
  by destruct (truthy (text p) && negb (endswith (text p) nl)).
Qed.

(** What a closing tag does to the ranges and the stack is what
    [_close_tag] does for its range type. *)
Lemma handle_endtag_close p tag k :
  range_kind tag = Some k →
  formatting_ranges (handle_endtag p tag) = formatting_ranges (_close_tag p k) ∧
  tag_stack (handle_endtag p tag) = tag_stack (_close_tag p k).
Proof.
  unfold range_kind, handle_endtag.
  destruct (tag_in tag ["strong"; "b"]); [by intros [= <-]|].
  destruct (tag_in tag ["em"; "i"]); [by intros [= <-]|].
  destruct (String.eqb tag "u"); [by intros [= <-]|].
  destruct (String.eqb tag "a"); [by intros [= <-]|].
  destruct (String.eqb tag "h2");
    [intros [= <-]; by rewrite force_newline_ranges, force_newline_stack|].
  destruct (String.eqb tag "h3");
    [intros [= <-]; by rewrite force_newline_ranges, force_newline_stack|].
  destruct (String.eqb_spec tag "blockquote") as [->|]; [|done].
  intros [= <-]. simpl.
  by rewrite force_newline_ranges, force_newline_stack.
Qed.

Lemma handle_endtag_no_close p tag :
  range_kind tag = None →
  formatting_ranges (handle_endtag p tag) = formatting_ranges p ∧
  tag_stack (handle_endtag p tag) = tag_stack p.
Proof.
  unfold range_kind, handle_endtag.
  destruct (tag_in tag ["strong"; "b"]); [done|].
  destruct (tag_in tag ["em"; "i"]); [done|].
  destruct (String.eqb tag "u"); [done|].
  destruct (String.eqb tag "a"); [done|].
  destruct (String.eqb tag "h2"); [done|].
  destruct (String.eqb tag "h3"); [done|].
  destruct (String.eqb_spec tag "blockquote") as [->|]; [done|].
  intros _. destruct (tag_in tag ["p"; "div"]); [|done].
  by rewrite force_newline_ranges, force_newline_stack.
Qed.

(** The two outcomes of [_close_tag] for the ranges. *)
Lemma _close_tag_ranges_cases p k :
  formatting_ranges (_close_tag p k) = formatting_ranges p ∨
  ∃ s, innermost k (tag_stack p) = Some s ∧ s < len (text p) ∧
       formatting_ranges (_close_tag p k) =
       formatting_ranges p ++ [closed_range p k s].
Proof.
  rewrite _close_tag_ranges.
  destruct (innermost k (tag_stack p)) as [s|]; [|by left].
  destruct (Z.gtb_spec (len (text p)) s); [|by left].
  right. exists s. split_and!; [done | lia | done].
Qed.

(** One call appends at most one range, of one of the seven types, which
    ends at the length the text has before the call. *)
Lemma handle_ranges_cases p e :
  formatting_ranges (handle p e) = formatting_ranges p ∨
  ∃ k s, k ∈ kinds ∧ innermost k (tag_stack p) = Some s ∧
         s < len (text p) ∧
         formatting_ranges (handle p e) =
         formatting_ranges p ++ [closed_range p k s].
Proof.
  destruct e as [tag attrs|tag|data]; simpl; [left | | by left].
  - apply handle_starttag_ranges.
  - destruct (range_kind tag) as [k|] eqn:Hk.
    + destruct (handle_endtag_close p tag k Hk) as [-> _].
      destruct (_close_tag_ranges_cases p k) as [?|(s & ? & ? & ?)];
        [by left|].
      right. exists k, s. split_and!; try done.
      by eapply range_kind_kinds.
    + left. by destruct (handle_endtag_no_close p tag Hk).
Qed.

(** ** The text only grows *)

Lemma force_newline_suffix p :
  ∃ suffix, text (force_newline p) = text p +:+ suffix.
Proof.
  rewrite force_newline_text. destruct (endswith (text p) nl).
  - exists "". by rewrite append_nil_r.
  - by exists nl.
Qed.

Lemma handle_text_suffix p e : ∃ suffix, text (handle p e) = text p +:+ suffix.
Proof.
  assert (∃ suffix, text p = text p +:+ suffix) as Hsame
    by (exists ""; by rewrite append_nil_r).
  destruct e as [tag attrs|tag|data]; simpl; [| |by exists data].
  - unfold handle_starttag. tag_cases tag; simpl; try done.
    + by exists nl.
    + destruct (truthy (text p) && negb (endswith (text p) nl)); [|done].
      by exists nl.
  - unfold handle_endtag. tag_cases tag; simpl; rewrite ?_close_tag_text;
      try done.
    all: try (destruct (force_newline_suffix (_close_tag p "heading2"))
                as [x Hx]; rewrite _close_tag_text in Hx; by exists x).
    all: try (destruct (force_newline_suffix (_close_tag p "heading3"))
                as [x Hx]; rewrite _close_tag_text in Hx; by exists x).
    all: try (destruct (force_newline_suffix (_close_tag p "blockquote"))
                as [x Hx]; rewrite _close_tag_text in Hx; by exists x).
    apply force_newline_suffix.
Qed.

Lemma run_text_suffix p evs : ∃ suffix, text (run p evs) = text p +:+ suffix.
Proof.
  revert p. induction evs as [|e evs IH]; intros p; simpl.
  - exists "". by rewrite append_nil_r.
  - destruct (IH (handle p e)) as [s2 ->].
    destruct (handle_text_suffix p e) as [s1 ->].
    exists (s1 +:+ s2). by rewrite append_assoc.
Qed.

(** The handlers only append to the text: whatever calls follow, the text
    a parser holds stays a prefix of the text it ends with. *)
Theorem text_only_grows p evs :
  ∃ suffix, text (run p evs) = text p +:+ suffix.
Proof. apply run_text_suffix. Qed.

(** ** Inline markup is stripped and the character data kept *)

(** The calls that can put a newline into the text. *)
Definition breaks_line (e : event) : bool :=
  match e with
  | StartTag tag _ => tag_in tag ["br"; "p"]
  | EndTag tag => tag_in tag ["h2"; "h3"; "p"; "div"; "blockquote"]
  | Data _ => false
  end.

(** The character data of the calls, in order. *)
Fixpoint data_of (evs : list event) : string :=
  match evs with
  | [] => ""
  | Data data :: evs' => data +:+ data_of evs'
  | _ :: evs' => data_of evs'
  end.

Lemma handle_text_inline p e :
  breaks_line e = false →
  text (handle p e) = text p +:+ data_of [e].
Proof.
  destruct e as [tag attrs|tag|data]; simpl; intros Hb;
    rewrite ?append_nil_r; [| |done].
  - unfold handle_starttag. unfold tag_in in Hb. simpl in Hb.
    apply orb_false_elim in Hb as [Hbr Hb].
    apply orb_false_elim in Hb as [Hp _].
    rewrite Hbr, Hp. by repeat case_match.
  - unfold handle_endtag. unfold tag_in in Hb |- *. simpl in Hb |- *.
    repeat (apply orb_false_elim in Hb as [? Hb]).
    repeat match goal with H : String.eqb _ _ = false |- _ =>
             rewrite H; clear H end.
    simpl. repeat case_match; simpl; by rewrite ?_close_tag_text.
Qed.

(** When no call is a [br], an opening [p] or the closing tag of a
    heading, paragraph, [div] or blockquote, the text gains exactly the
    character data of the calls: all other tags, known or not, leave no
    trace in the text. *)
Theorem inline_markup_keeps_data p evs :
  forallb (λ e, negb (breaks_line e)) evs = true →
  text (run p evs) = text p +:+ data_of evs.
Proof.
  revert p. induction evs as [|e evs IH]; intros p; simpl.
  - by rewrite append_nil_r.
  - intros [He Hevs]%andb_true_iff. apply negb_true_iff in He.
    rewrite (IH _ Hevs), (handle_text_inline p e He), append_assoc.
    f_equal. destruct e; simpl; by rewrite ?append_nil_r.
Qed.

Lemma inline_markup_keeps_data_witness :
  forallb (λ e, negb (breaks_line e))
    [Data "Hello "; StartTag "strong" []; Data "wor"; StartTag "span" [];
     Data "ld"; EndTag "span"; EndTag "strong"] = true ∧
  text (run init
          [Data "Hello "; StartTag "strong" []; Data "wor"; StartTag "span" [];
           Data "ld"; EndTag "span"; EndTag "strong"]) = "Hello world".
Proof.
  split; [reflexivity|].
  rewrite (inline_markup_keeps_data init
             [Data "Hello "; StartTag "strong" []; Data "wor";
              StartTag "span" []; Data "ld"; EndTag "span"; EndTag "strong"]
             eq_refl).
  reflexivity.
Defined.

(** ** Ranges and tags counted *)

Definition is_start_tag (e : event) : bool :=
  match e with StartTag _ _ => true | _ => false end.

Definition is_end_tag (e : event) : bool :=
  match e with EndTag _ => true | _ => false end.

Lemma _close_tag_lengths p k :
  (length (formatting_ranges (_close_tag p k)) +
     length (tag_stack (_close_tag p k))
   ≤ length (formatting_ranges p) + length (tag_stack p))%nat ∧
  (length (formatting_ranges (_close_tag p k))
   ≤ S (length (formatting_ranges p)))%nat.
Proof.
  destruct (_close_tag_cases p k)
    as [[_ ->]|(l1 & l2 & s & Hst & _ & ->)]; simpl; [lia|].
  rewrite Hst, !length_app. simpl.
  destruct (len (text p) >? s); rewrite ?length_app; simpl; lia.
Qed.

Lemma handle_lengths p e :
  (length (formatting_ranges (handle p e)) + length (tag_stack (handle p e))
   ≤ length (formatting_ranges p) + length (tag_stack p) +
     (if is_start_tag e then 1 else 0))%nat ∧
  (length (formatting_ranges (handle p e))
   ≤ length (formatting_ranges p) + (if is_end_tag e then 1 else 0))%nat.
Proof.
  destruct e as [tag attrs|tag|data]; simpl; [| |lia].
  - rewrite handle_starttag_ranges.
    destruct (range_kind tag) as [k|] eqn:Hk.
    + destruct (handle_starttag_push p tag attrs k Hk) as [-> _].
      rewrite length_app. simpl. lia.
    + rewrite (handle_starttag_no_push p tag attrs Hk). lia.
  - destruct (range_kind tag) as [k|] eqn:Hk.
    + destruct (handle_endtag_close p tag k Hk) as [-> ->].
      pose proof (_close_tag_lengths p k). lia.
    + destruct (handle_endtag_no_close p tag Hk) as [-> ->]. lia.
Qed.

Lemma run_lengths p evs :
  (length (formatting_ranges (run p evs)) + length (tag_stack (run p evs))
   ≤ length (formatting_ranges p) + length (tag_stack p) +
     length (List.filter is_start_tag evs))%nat ∧
  (length (formatting_ranges (run p evs))
   ≤ length (formatting_ranges p) + length (List.filter is_end_tag evs))%nat.
Proof.
  revert p. induction evs as [|e evs IH]; intros p; simpl; [lia|].
  pose proof (IH (handle p e)) as [IH1 IH2].
  pose proof (handle_lengths p e) as [H1 H2].
  destruct (is_start_tag e), (is_end_tag e); simpl; lia.
Qed.

(** Every range comes from an opening tag of its own that has been closed:
    the ranges and the entries still pending are together at most as many
    as the opening tags seen, and the ranges at most as many as the closing
    tags seen. *)
Theorem ranges_bounded_by_tags evs :
  (length (formatting_ranges (run init evs)) +
     length (tag_stack (run init evs))
   ≤ length (List.filter is_start_tag evs))%nat ∧
  (length (formatting_ranges (run init evs))
   ≤ length (List.filter is_end_tag evs))%nat.
Proof. pose proof (run_lengths init evs). simpl in *. lia. Qed.

(** ** Ranges are listed in closing order *)

Definition ends_le : relation fmt_range := λ a b, fmt_end a ≤ fmt_end b.

Lemma handle_ends_sorted p e :
  wf p →
  StronglySorted ends_le (formatting_ranges p) →
  StronglySorted ends_le (formatting_ranges (handle p e)).
Proof.
  intros Hwf Hs.
  destruct (handle_ranges_cases p e) as [->|(k & s & _ & _ & _ & ->)]; [done|].
  apply StronglySorted_app_2; [| done | repeat constructor].
  intros a b Ha ->%list_elem_of_singleton. unfold ends_le. simpl.
  pose proof (wf_range_bounds p Hwf) as Hb. rewrite Forall_forall in Hb.
  by destruct (Hb a Ha) as (_ & _ & ?).
Qed.

(** The ranges of a result are in the order in which their tags closed:
    along the list the end offsets never decrease. *)
Theorem ranges_ends_sorted evs :
  StronglySorted ends_le (formatting_ranges (run init evs)).
Proof.
  assert (∀ p, wf p → StronglySorted ends_le (formatting_ranges p) →
               StronglySorted ends_le (formatting_ranges (run p evs))) as H.
  { induction evs as [|e evs IH]; intros p Hwf Hs; simpl; [done|].
    apply IH; [by apply wf_handle | by apply handle_ends_sorted]. }
  apply H; [apply wf_init | constructor].
Qed.

(** ** Types and URLs of the ranges *)

(** [r] has one of the seven types, and a URL only if it is a link. *)
Definition typed_range (r : fmt_range) : Prop :=
  fmt_type r ∈ kinds ∧ (fmt_type r ≠ "link" → fmt_url r = None).

Lemma handle_typed p e :
  Forall typed_range (formatting_ranges p) →
  Forall typed_range (formatting_ranges (handle p e)).
Proof.
  intros Ht.
  destruct (handle_ranges_cases p e) as [->|(k & s & Hk & _ & _ & ->)];
    [done|].
  apply Forall_app. split; [done|]. apply Forall_singleton.
  split; simpl; [done|]. by intros ->%String.eqb_neq.
Qed.

(** The parser only ever emits ranges of the six types for which
    [get_docs_requests] has a branch, or of type [blockquote], and only
    link ranges carry a URL. *)
Theorem ranges_typed evs :
  Forall typed_range (formatting_ranges (run init evs)).
Proof.
  assert (∀ p, Forall typed_range (formatting_ranges p) →
               Forall typed_range (formatting_ranges (run p evs))) as H.
  { induction evs as [|e evs IH]; intros p Hp; simpl; [done|].
    by apply IH, handle_typed. }
  apply H. constructor.
Qed.

(** ** Requests stay inside the inserted text *)

(** Every request stems from a range and carries its shifted offsets. *)
Lemma docs_requests_of_origin rs i :
  Forall (λ q, ∃ r, r ∈ rs ∧
                    request_range q = (i + fmt_start r, i + fmt_end r))
    (docs_requests_of rs i).
Proof.
  rewrite docs_requests_of_flat_map.
  induction rs as [|r rs IH]; simpl; [constructor|].
  apply Forall_app. split.
  - pose proof (docs_request_step_emits i r) as Hm.
    destruct (docs_request_step i [] r) as [|q [|q' l]]; [constructor| |].
    + apply Forall_singleton. exists r. split; [by left|].
      simpl in Hm. destruct (emits r); [|done].
      injection Hm as H1 H2. unfold request_range. by rewrite H1, H2.
    + simpl in Hm. by destruct (emits r).
  - eapply Forall_impl; [exact IH|]. simpl.
    intros q (r' & Hr' & Hq). exists r'. split; [by right | done].
Qed.

(** The requests made for a parsed text with start index [start_index]
    address characters of that text once it is inserted at [start_index]:
    each has [start_index <= startIndex < endIndex <= start_index +
    len(text)]. *)
Theorem requests_within_inserted_text evs start_index :
  Forall (λ q, start_index ≤ startIndex q ∧ startIndex q < endIndex q ∧
               endIndex q ≤ start_index + len (text (run init evs)))
    (get_docs_requests (run init evs) start_index).
Proof.
  unfold get_docs_requests.
  eapply Forall_impl; [apply docs_requests_of_origin|]. simpl.
  intros q (r & Hr & Hq). injection Hq as -> ->.
  pose proof (wf_range_bounds _ (wf_run _ evs wf_init)) as Hb.
  rewrite Forall_forall in Hb. destruct (Hb r Hr) as (? & ? & ?). lia.
Qed.

(** ** Moving the start index *)

(** The request [q] moved by [d] characters. *)
Definition shift_request (d : Z) (q : request) : request :=
  {| startIndex := startIndex q + d; endIndex := endIndex q + d;
     style := style q; fields := fields q |}.

Lemma docs_request_step_shift i d r :
  docs_request_step (i + d) [] r =
  map (shift_request d) (docs_request_step i [] r).
Proof.
  unfold docs_request_step, shift_request.
  repeat case_match; simpl; try done; do 2 f_equal; lia.
Qed.

(** The start index only moves the requests: with [start_index + d] in
    place of [start_index] there are the same requests in the same order,
    with the same styles and fields, each moved by [d]. *)
Theorem requests_move_with_start_index ranges start_index d :
  docs_requests_of ranges (start_index + d) =
  map (shift_request d) (docs_requests_of ranges start_index).
Proof.
  rewrite !docs_requests_of_flat_map.
  induction ranges as [|r rs IH]; simpl; [done|].
  by rewrite map_app, IH, docs_request_step_shift.
Qed.

(** ** Tag names that mean the same *)

(** [strong] written as [b] and [em] written as [i]. *)
Definition canon_tag (tag : string) : string :=
  if String.eqb tag "strong" then "b"
  else if String.eqb tag "em" then "i"
  else tag.

Definition canon (e : event) : event :=
  match e with
  | StartTag tag attrs => StartTag (canon_tag tag) attrs
  | EndTag tag => EndTag (canon_tag tag)
  | Data data => Data data
  end.

Lemma handle_canon p e : handle p (canon e) = handle p e.
Proof.
  destruct e as [tag attrs|tag|data]; simpl; [| |done]; unfold canon_tag.
  - destruct (String.eqb_spec tag "strong") as [->|]; [done|].
    by destruct (String.eqb_spec tag "em") as [->|].
  - destruct (String.eqb_spec tag "strong") as [->|]; [done|].
    by destruct (String.eqb_spec tag "em") as [->|].
Qed.

(** [strong] and [b] are interchangeable, and so are [em] and [i], as
    opening and as closing tags, and also across one element: replacing
    the one by the other anywhere does not change the parser. *)
Theorem tag_aliases p evs : run p (map canon evs) = run p evs.
Proof.
  revert p. induction evs as [|e evs IH]; intros p; simpl; [done|].
  by rewrite handle_canon, IH.
Qed.

(** ** Tags outside the vocabulary *)

(** The tag names for which a handler has a branch. *)
Definition vocabulary : list string :=
  ["strong"; "b"; "em"; "i"; "u"; "a"; "h2"; "h3"; "br"; "p"; "div";
   "blockquote"].

(** A call for a tag outside the vocabulary. *)
Definition foreign (e : event) : bool :=
  match e with
  | StartTag tag _ | EndTag tag => negb (tag_in tag vocabulary)
  | Data _ => false
  end.

Lemma handle_foreign p e : foreign e = true → handle p e = p.
Proof.
  destruct e as [tag attrs|tag|data]; simpl; [| |done];
    intros Hf%negb_true_iff; unfold tag_in, vocabulary in Hf; simpl in Hf;
    repeat (apply orb_false_elim in Hf as [? Hf]).
  - unfold handle_starttag, tag_in. simpl.
    by repeat match goal with H : String.eqb _ _ = false |- _ =>
                rewrite H; clear H end.
  - unfold handle_endtag, tag_in. simpl.
    by repeat match goal with H : String.eqb _ _ = false |- _ =>
                rewrite H; clear H end.
Qed.


(** ** Character data delivered in pieces *)

(** The library may deliver one run of text in several calls; the parser
    ends in the same state as with one call for the whole run. *)
Theorem data_in_pieces p a b evs :
  run p (Data a :: Data b :: evs) = run p (Data (a +:+ b) :: evs).
Proof.
  simpl. f_equal. unfold handle_data, set_text. simpl.
  by rewrite append_assoc.
Qed.

(** ** Paragraph boundaries do not pile up newlines *)

Lemma force_newline_endswith p : endswith (text (force_newline p)) nl = true.
Proof.
  rewrite force_newline_text.
  destruct (endswith (text p) nl) eqn:He; [done | apply endswith_append].
Qed.

Lemma force_newline_fixed p : endswith (text p) nl = true → force_newline p = p.
Proof. unfold force_newline. by intros ->. Qed.

(** After the closing tag of a heading, a paragraph, a [div] or a
    blockquote the text ends in a newline, and a closing [p] or [div] or
    an opening [p] that follows at once adds nothing: block boundaries
    that meet give one newline, not several. *)
Theorem block_boundaries_single_newline p tag attrs :
  tag_in tag ["h2"; "h3"; "p"; "div"; "blockquote"] = true →
  endswith (text (handle_endtag p tag)) nl = true ∧
  handle_endtag (handle_endtag p tag) "p" = handle_endtag p tag ∧
  handle_endtag (handle_endtag p tag) "div" = handle_endtag p tag ∧
  handle_starttag (handle_endtag p tag) "p" attrs = handle_endtag p tag.
Proof.
  intros Htag.
  assert (endswith (text (handle_endtag p tag)) nl = true) as He.
  { unfold tag_in in Htag. simpl in Htag.
    repeat (apply orb_true_iff in Htag as [Htag|Htag]);
      try apply String.eqb_eq in Htag as ->; try done;
      apply force_newline_endswith. }
  split_and!; [done | | |].
  - change (handle_endtag (handle_endtag p tag) "p")
      with (force_newline (handle_endtag p tag)).
    by apply force_newline_fixed.
  - change (handle_endtag (handle_endtag p tag) "div")
      with (force_newline (handle_endtag p tag)).
    by apply force_newline_fixed.
  - change (handle_starttag (handle_endtag p tag) "p" attrs)
      with (if truthy (text (handle_endtag p tag)) &&
               negb (endswith (text (handle_endtag p tag)) nl)
            then set_text (handle_endtag p tag)
                   (text (handle_endtag p tag) +:+ nl)
            else handle_endtag p tag).
    by rewrite He, andb_false_r.
Qed.

Lemma block_boundaries_single_newline_witness :
  tag_in "h2" ["h2"; "h3"; "p"; "div"; "blockquote"] = true ∧
  text (run init [StartTag "h2" []; Data "T"; EndTag "h2"; EndTag "div";
                  StartTag "p" []; Data "x"]) = "T" +:+ nl +:+ "x".
Proof.
  split; [reflexivity|].
  pose proof (block_boundaries_single_newline
                (run init [StartTag "h2" []; Data "T"]) "h2" [] eq_refl)
    as (_ & _ & Hdiv & Hp).
  change (run init [StartTag "h2" []; Data "T"; EndTag "h2"; EndTag "div";
                    StartTag "p" []; Data "x"])
    with (handle_data
            (handle_starttag
               (handle_endtag
                  (handle_endtag (run init [StartTag "h2" []; Data "T"]) "h2")
                  "div") "p" []) "x").
  rewrite Hdiv, Hp. reflexivity.
Defined.

(** ** An element and its range *)

(** The calls that push or pop an entry of type [k]. *)
Definition touches (k : string) (e : event) : bool :=
  match e with
  | StartTag tag _ | EndTag tag => bool_decide (range_kind tag = Some k)
  | Data _ => false
  end.

Lemma handle_keeps_kind p e k :
  touches k e = false →
  innermost k (tag_stack (handle p e)) = innermost k (tag_stack p).
Proof.
  destruct e as [tag attrs|tag|data]; simpl; [| |done];
    intros Hk%bool_decide_eq_false.
  - destruct (range_kind tag) as [k'|] eqn:Hk'.
    + destruct (handle_starttag_push p tag attrs k' Hk') as [-> _].
      rewrite innermost_push.
      destruct (String.eqb_spec k' k) as [->|]; done.
    + by rewrite (handle_starttag_no_push p tag attrs Hk').
  - destruct (range_kind tag) as [k'|] eqn:Hk'.
    + destruct (handle_endtag_close p tag k' Hk') as [_ ->].
      apply _close_tag_innermost_other. congruence.
    + by destruct (handle_endtag_no_close p tag Hk') as [_ ->].
Qed.

Lemma run_keeps_kind p evs k :
  forallb (λ e, negb (touches k e)) evs = true →
  innermost k (tag_stack (run p evs)) = innermost k (tag_stack p).
Proof.
  revert p. induction evs as [|e evs IH]; intros p; simpl; [done|].
  intros [He Hevs]%andb_true_iff. apply negb_true_iff in He.
  by rewrite (IH _ Hevs), handle_keeps_kind.
Qed.

(** An element gets the range of its content.  Let a tag of range type
    [k] open on any parser [p] and a tag of the same type close after
    calls [mid] among which no tag of that type opens or closes.  Then the
    text has grown by some [content], and the closing tag appends the
    range of type [k] that covers exactly [content], or nothing when
    [content] is empty. *)
Theorem element_range p tag tag' k attrs mid :
  range_kind tag = Some k →
  range_kind tag' = Some k →
  forallb (λ e, negb (touches k e)) mid = true →
  ∃ content,
    text (run (handle_starttag p tag attrs) mid) = text p +:+ content ∧
    formatting_ranges
      (handle_endtag (run (handle_starttag p tag attrs) mid) tag') =
    if truthy content
    then formatting_ranges (run (handle_starttag p tag attrs) mid) ++
           [Fmt k (len (text p)) (len (text p) + len content)
              (if String.eqb k "link"
               then link_url (run (handle_starttag p tag attrs) mid)
               else None)]
    else formatting_ranges (run (handle_starttag p tag attrs) mid).
Proof.
  intros Hk Hk' Hmid.
  destruct (handle_starttag_push p tag attrs k Hk) as [Hst Htx].
  destruct (run_text_suffix (handle_starttag p tag attrs) mid)
    as [content Hc].
  rewrite Htx in Hc. exists content. split; [done|].
  destruct (handle_endtag_close (run (handle_starttag p tag attrs) mid)
              tag' k Hk') as [-> _].
  rewrite _close_tag_ranges, (run_keeps_kind _ mid k Hmid), Hst.
  rewrite innermost_push, String.eqb_refl.
  unfold closed_range. rewrite Hc, len_append, truthy_len_pos.
  destruct (Z.gtb_spec (len (text p) + len content) (len (text p)));
    destruct (Z.gtb_spec (len content) 0); try lia; done.
Qed.

Lemma element_range_witness :
  range_kind "strong" = Some "bold" ∧
  range_kind "b" = Some "bold" ∧
  forallb (λ e, negb (touches "bold" e))
    [Data "x"; StartTag "i" []; Data "y"; EndTag "i"] = true ∧
  formatting_ranges
    (handle_endtag
       (run (handle_starttag (run init [StartTag "b" []; Data "ab"])
               "strong" [])
          [Data "x"; StartTag "i" []; Data "y"; EndTag "i"]) "b")
  = [Fmt "italic" 3 4 None; Fmt "bold" 2 4 None].
Proof.
  split_and!; [reflexivity..|].
  destruct (element_range (run init [StartTag "b" []; Data "ab"])
              "strong" "b" "bold" []
              [Data "x"; StartTag "i" []; Data "y"; EndTag "i"]
              eq_refl eq_refl eq_refl) as (content & Htext & ->).
  vm_compute in Htext. injection Htext as <-. reflexivity.
Defined.

(** ** Closing tags without an opening tag *)

(** A closing tag for which no entry of its type is pending changes
    neither the ranges nor the stack. *)
Theorem unmatched_end_tag_ignored p tag k :
  range_kind tag = Some k →
  Forall (λ e, e.1 ≠ k) (tag_stack p) →
  formatting_ranges (handle_endtag p tag) = formatting_ranges p ∧
  tag_stack (handle_endtag p tag) = tag_stack p.
Proof.
  intros Hk Hno. destruct (handle_endtag_close p tag k Hk) as [-> ->].
  destruct (_close_tag_cases p k)
    as [[_ ->]|(l1 & l2 & s & Hst & _ & _)]; [done|].
  rewrite Hst in Hno. apply Forall_app in Hno as [_ Hno].
  apply Forall_cons in Hno as [Hno _]. done.
Qed.

Lemma unmatched_end_tag_ignored_witness :
  range_kind "b" = Some "bold" ∧
  Forall (λ e : string * Z, e.1 ≠ "bold")
    (tag_stack (run init [StartTag "i" []; Data "a"])) ∧
  formatting_ranges
    (handle_endtag (run init [StartTag "i" []; Data "a"]) "b") = [] ∧
  tag_stack (handle_endtag (run init [StartTag "i" []; Data "a"]) "b")
  = [("italic", 0)].
Proof.
  assert (Forall (λ e : string * Z, e.1 ≠ "bold")
            (tag_stack (run init [StartTag "i" []; Data "a"]))) as Hno.
  { apply Forall_singleton. discriminate. }
  split_and!; [reflexivity | exact Hno | |];
    apply (unmatched_end_tag_ignored
             (run init [StartTag "i" []; Data "a"]) "b" "bold" eq_refl Hno).
Defined.

(** ** The pending entries *)

(** The entries pending on the stack have start offsets inside the text,
    in non-decreasing order from the bottom of the stack to its top. *)
Theorem pending_entries_ordered evs :
  StronglySorted starts_le (tag_stack (run init evs)) ∧
  Forall (λ e : string * Z, 0 ≤ e.2 ∧ e.2 ≤ len (text (run init evs)))
    (tag_stack (run init evs)).
Proof.
  pose proof (wf_run init evs wf_init) as [Hb Hs _ _ _]. done.
Qed.

(** ** Tags left open *)

(** The calls that open, and the calls that close, an entry of type [k]. *)
Definition opens (k : string) (e : event) : bool :=
  match e with
  | StartTag tag _ => bool_decide (range_kind tag = Some k)
  | EndTag _ | Data _ => false
  end.

Definition closes (k : string) (e : event) : bool :=
  match e with
  | EndTag tag => bool_decide (range_kind tag = Some k)
  | StartTag _ _ | Data _ => false
  end.

(** The ranges, and the pending entries, of type [k]. *)
Definition ranges_of_kind (k : string) (l : list fmt_range) : list fmt_range :=
  List.filter (λ r, String.eqb (fmt_type r) k) l.

Definition pending_of_kind (k : string) (st : list (string * Z))
  : list (string * Z) :=
  List.filter (λ e, String.eqb e.1 k) st.

Lemma _close_tag_kind_counts p k0 k :
  (length (ranges_of_kind k (formatting_ranges (_close_tag p k0))) +
     length (pending_of_kind k (tag_stack (_close_tag p k0)))
   ≤ length (ranges_of_kind k (formatting_ranges p)) +
     length (pending_of_kind k (tag_stack p)))%nat ∧
  (length (ranges_of_kind k (formatting_ranges (_close_tag p k0)))
   ≤ length (ranges_of_kind k (formatting_ranges p)) +
     (if String.eqb k0 k then 1 else 0))%nat.
Proof.
  destruct (_close_tag_cases p k0)
    as [[_ ->]|(l1 & l2 & s & Hst & _ & ->)]; simpl; [lia|].
  unfold ranges_of_kind, pending_of_kind. rewrite Hst, !List.filter_app.
  simpl. destruct (len (text p) >? s); rewrite ?List.filter_app; simpl;
    destruct (String.eqb k0 k); rewrite ?length_app; simpl; lia.
Qed.

Lemma handle_kind_counts p e k :
  (length (ranges_of_kind k (formatting_ranges (handle p e))) +
     length (pending_of_kind k (tag_stack (handle p e)))
   ≤ length (ranges_of_kind k (formatting_ranges p)) +
     length (pending_of_kind k (tag_stack p)) +
     (if opens k e then 1 else 0))%nat ∧
  (length (ranges_of_kind k (formatting_ranges (handle p e)))
   ≤ length (ranges_of_kind k (formatting_ranges p)) +
     (if closes k e then 1 else 0))%nat.
Proof.
  destruct e as [tag attrs|tag|data]; simpl; [| |lia].
  - rewrite handle_starttag_ranges.
    destruct (range_kind tag) as [k0|] eqn:Hk.
    + destruct (handle_starttag_push p tag attrs k0 Hk) as [-> _].
      unfold pending_of_kind. rewrite List.filter_app, length_app. simpl.
      destruct (String.eqb_spec k0 k) as [->|Hne]; simpl.
      * rewrite bool_decide_eq_true_2 by done. lia.
      * lia.
    + rewrite (handle_starttag_no_push p tag attrs Hk). lia.
  - destruct (range_kind tag) as [k0|] eqn:Hk.
    + destruct (handle_endtag_close p tag k0 Hk) as [-> ->].
      pose proof (_close_tag_kind_counts p k0 k) as [H1 H2].
      destruct (String.eqb_spec k0 k) as [->|Hne].
      * rewrite bool_decide_eq_true_2 by done. lia.
      * split; [lia|]. destruct (bool_decide _); lia.
    + destruct (handle_endtag_no_close p tag Hk) as [-> ->]. lia.
Qed.

Lemma run_kind_counts p evs k :
  (length (ranges_of_kind k (formatting_ranges (run p evs))) +
     length (pending_of_kind k (tag_stack (run p evs)))
   ≤ length (ranges_of_kind k (formatting_ranges p)) +
     length (pending_of_kind k (tag_stack p)) +
     length (List.filter (opens k) evs))%nat ∧
  (length (ranges_of_kind k (formatting_ranges (run p evs)))
   ≤ length (ranges_of_kind k (formatting_ranges p)) +
     length (List.filter (closes k) evs))%nat.
Proof.
  revert p. induction evs as [|e evs IH]; intros p; simpl; [lia|].
  pose proof (IH (handle p e)) as [IH1 IH2].
  pose proof (handle_kind_counts p e k) as [H1 H2].
  destruct (opens k e), (closes k e); simpl; lia.
Qed.

(** C6: for every input, an entry that is still on the stack when the
    input ends has produced no range, and there is no error.  Opening tags
    and text never append a range.  A closing tag appends at most one
    range, of its own type and for the innermost pending entry of that
    type only, whatever else is pending above or below it.  Hence, for
    every sequence of calls and every type, the ranges of the type are at
    most as many as the closing tags of the type, and the ranges and the
    pending entries of the type together at most as many as its opening
    tags: a pending entry has no range.  Nothing is done with the stack at
    the end: the result holds the text and the ranges collected so far, as
    for [<strong>bold text], and as for [<i>x<b>y</i>], where the bold
    entry stays pending above the italic one that closes. *)
Theorem unclosed_tags_emit_nothing :
  (∀ p evs,
     forallb no_end_tag evs = true →
     formatting_ranges (run p evs) = formatting_ranges p) ∧
  (∀ feed_calls s evs,
     truthy s = true → feed_calls s = Some evs →
     parse_html_for_docs feed_calls (PyStr s) =
       (Some (text (run init evs)), TheParser (run init evs))) ∧
  parse (PyStr "<strong>bold text") =
    (Some "bold text",
     TheParser {| text := "bold text"; formatting_ranges := [];
                  current_pos := 0; tag_stack := [("bold", 0)];
                  link_url := None |}) ∧
  (∀ p tag attrs,
     formatting_ranges (handle_starttag p tag attrs) = formatting_ranges p) ∧
  (∀ p data, formatting_ranges (handle_data p data) = formatting_ranges p) ∧
  (∀ p tag,
     formatting_ranges (handle_endtag p tag) =
     match range_kind tag with
     | Some k =>
         match innermost k (tag_stack p) with
         | Some start =>
             if len (text p) >? start
             then formatting_ranges p ++ [closed_range p k start]
             else formatting_ranges p
         | None => formatting_ranges p
         end
     | None => formatting_ranges p
     end) ∧
  (∀ evs k,
     (length (ranges_of_kind k (formatting_ranges (run init evs))) +
        length (pending_of_kind k (tag_stack (run init evs)))
      ≤ length (List.filter (opens k) evs))%nat ∧
     (length (ranges_of_kind k (formatting_ranges (run init evs)))
      ≤ length (List.filter (closes k) evs))%nat) ∧
  parse (PyStr "<i>x<b>y</i>") =
    (Some "xy",
     TheParser {| text := "xy";
                  formatting_ranges := [Fmt "italic" 0 2 None];
                  current_pos := 0; tag_stack := [("bold", 1)];
                  link_url := None |}).
Proof.
  split_and!.
  - apply run_no_end_tag_ranges.
  - intros feed_calls s evs Hs Hevs. unfold parse_html_for_docs. simpl.
    by rewrite Hs, Hevs.
  - vm_compute. reflexivity.
  - apply handle_starttag_ranges.
  - done.
  - intros p tag. destruct (range_kind tag) as [k|] eqn:Hk.
    + destruct (handle_endtag_close p tag k Hk) as [-> _].
      apply _close_tag_ranges.
    + by destruct (handle_endtag_no_close p tag Hk) as [-> _].
  - intros evs k. pose proof (run_kind_counts init evs k) as [H1 H2].
    simpl in *. split; lia.
  - vm_compute. reflexivity.
Qed.

Lemma unclosed_tags_emit_nothing_witness :
  forallb no_end_tag
    [StartTag "strong" []; Data "bold text"; StartTag "h2" []] = true ∧
  formatting_ranges
    (run (run init [StartTag "i" []; Data "a"; EndTag "i"])
       [StartTag "strong" []; Data "bold text"; StartTag "h2" []])
  = [Fmt "italic" 0 1 None] ∧
  truthy "<u>x" = true ∧
  scan "<u>x" = Some [StartTag "u" []; Data "x"] ∧
  parse_html_for_docs scan (PyStr "<u>x") =
    (Some "x", TheParser (run init [StartTag "u" []; Data "x"])).
Proof.
  split_and!; [reflexivity | | reflexivity | vm_compute; reflexivity |].
  - rewrite (proj1 unclosed_tags_emit_nothing
               (run init [StartTag "i" []; Data "a"; EndTag "i"])
               [StartTag "strong" []; Data "bold text"; StartTag "h2" []]
               eq_refl).
    vm_compute. reflexivity.
  - apply (proj1 (proj2 unclosed_tags_emit_nothing) scan "<u>x"
             [StartTag "u" []; Data "x"] eq_refl).
    vm_compute. reflexivity.
Defined.

(** * The caller: what [export_to_docs] inserts and formats *)

(** The truth value of the second component of a result: a parser object
    is true, the empty list and [None] are false. *)
Definition slot_truthy (s : parser_slot) : bool :=
  match s with
  | TheParser _ => true
  | EmptyList | NoParser => false
  end.

Section ExportToDocs.

Variable feed_calls : string → option (list event).

(** Lines 1664-1672 of [export_to_docs]: from the plain [article] and its
    HTML version, the text that is then inserted at index 1 of the new
    document and the requests that are then sent to format it. *)
Definition export_content (article article_html : html_content_t)
  : html_content_t * list request :=
  let text_content := article in
  let formatting_requests := [] in
  if content_truthy article_html then
    match parse_html_for_docs feed_calls article_html with
    | (parsed_text, parser) =>
        if truthy_opt parsed_text && slot_truthy parser then
          match parsed_text, parser with
          | Some t, TheParser p => (PyStr t, get_docs_requests p 1)
          | _, _ => (text_content, formatting_requests)
          end
        else (text_content, formatting_requests)
    end
  else (text_content, formatting_requests).


End ExportToDocs.

(** * Display names and document titles *)

(** [s.lower()] for a string of ASCII characters. *)
Fixpoint ascii_lower (s : string) : string :=
  match s with
  | EmptyString => EmptyString
  | String c s' => String (lower c) (ascii_lower s')
  end.

(** The dict [names] of [get_pub_display_name]. *)
Definition names : gmap string string :=
  <["fastcompany" := "Fast Company"]>
    (<["entrepreneur" := "Entrepreneur"]> (<["forbes" := "Forbes"]> ∅)).

Lemma names_lookup key name :
  names !! key = Some name →
  name = "Forbes" ∨ name = "Entrepreneur" ∨ name = "Fast Company".
Proof.
  unfold names. rewrite !lookup_insert, lookup_empty.
  repeat case_decide; naive_solver.
Qed.

Section DisplayName.

(** Python's [str.lower]. *)
Variable str_lower : string → string.

(** [names.get(pub_key.lower(), pub_key)]. *)
Definition get_pub_display_name (pub_key : string) : string :=
  default pub_key (names !! str_lower pub_key).

(** [format_doc_title]; [year], [month] and [doc_type] are the texts that
    the f-string writes for these arguments. *)
Definition format_doc_title (year month publication doc_type : string)
  : string :=
  let pub_name := get_pub_display_name publication in
  year +:+ " " +:+ month +:+ " " +:+ pub_name +:+ " " +:+ doc_type.

(** A display name is its own display name, so that naming is idempotent
    and a title is the same whether it is made from the identifier of a
    publication or from its display name.  The three hypotheses say how
    [lower] acts on the three names of the dict. *)
Theorem display_name_idempotent pub_key year month doc_type :
  str_lower "Forbes" = "forbes" →
  str_lower "Entrepreneur" = "entrepreneur" →
  str_lower "Fast Company" = "fast company" →
  get_pub_display_name (get_pub_display_name pub_key)
    = get_pub_display_name pub_key ∧
  format_doc_title year month (get_pub_display_name pub_key) doc_type
    = format_doc_title year month pub_key doc_type.
Proof.
  intros Hf He Hc.
  assert (get_pub_display_name (get_pub_display_name pub_key)
          = get_pub_display_name pub_key) as Hidem.
  { unfold get_pub_display_name at 2 3.
    destruct (names !! str_lower pub_key) as [name|] eqn:Hn; simpl.
    - unfold get_pub_display_name.
      destruct (names_lookup _ _ Hn) as [->|[->| ->]];
        rewrite ?Hf, ?He, ?Hc; reflexivity.
    - unfold get_pub_display_name. by rewrite Hn. }
  split; [done|]. unfold format_doc_title. by rewrite Hidem.
Qed.

End DisplayName.

Lemma display_name_idempotent_witness :
  ascii_lower "Forbes" = "forbes" ∧
  ascii_lower "Entrepreneur" = "entrepreneur" ∧
  ascii_lower "Fast Company" = "fast company" ∧
  get_pub_display_name ascii_lower
    (get_pub_display_name ascii_lower "FastCompany") = "Fast Company" ∧
  format_doc_title ascii_lower "2026" "May"
    (get_pub_display_name ascii_lower "FORBES") "Draft"
  = "2026 May Forbes Draft".
Proof.
  split_and!; [reflexivity..| |].
  - rewrite (proj1 (display_name_idempotent ascii_lower "FastCompany"
                      "" "" "" eq_refl eq_refl eq_refl)).
    vm_compute. reflexivity.
  - rewrite (proj2 (display_name_idempotent ascii_lower "FORBES"
                      "2026" "May" "Draft" eq_refl eq_refl eq_refl)).
    vm_compute. reflexivity.
Defined.

(** * Saved topics

    The three routes under [/api/saved-topics/<publication>] keep one JSON
    object in the blob [saved-topics/topics.json]: a list of topics for
    each publication key.  The blob store, the request and the session are
    the state and the inputs of the functions below.  The calls to the
    store are taken to succeed, and a blob that exists holds what these
    routes wrote: an object whose values are lists of objects.  JSON values
    are kept abstract, with Python's truth value and [==] on them. *)

Section SavedTopics.

Variable json : Type.
(** [None], the value of JSON [null] and of a missing key. *)
Variable jnull : json.
(** A string as a JSON value. *)
Variable jstr : string → json.
(** The truth value of a JSON value. *)
Variable json_truthy : json → bool.
(** [a == b] on JSON values. *)
Variable json_eq : json → json → bool.
(** [str.lower]. *)
Variable str_lower : string → string.

(** [request.json]: it raises, or is an object, or is another value
    ([null], a list, a string, a number) of which only the truth value
    matters. *)
Inductive request_body :=
  | BodyRaises
  | BodyObject (t : gmap string json)
  | BodyOther (truth : bool).

(** The answers of [save_topic]: status 503; status 400 (headline
    required); success false (already saved); success true with the topic;
    status 500 (an exception). *)
Inductive save_response :=
  | SaveUnavailable
  | SaveHeadlineRequired
  | SaveAlreadySaved
  | Saved (t : gmap string json)
  | SaveFailed.

(** [d.get(key)]. *)
Definition get_field (d : gmap string json) (key : string) : json :=
  default jnull (d !! key).

(** [current_user.get('email', 'Unknown') if current_user else 'Unknown'];
    a session without user gives [None], and an empty dict is false. *)
Definition user_email_of (current_user : option (gmap string json)) : json :=
  match current_user with
  | Some user =>
      if (size user =? 0)%nat then jstr "Unknown"
      else default (jstr "Unknown") (user !! "email")
  | None => jstr "Unknown"
  end.

(** The three assignments [topic['savedAt']], [topic['savedBy']] and
    [topic['publication']]. *)
Definition with_metadata (t : gmap string json) (now : string)
    (user_email : json) (pub_key : string) : gmap string json :=
  <["publication" := jstr pub_key]>
    (<["savedBy" := user_email]> (<["savedAt" := jstr now]> t)).

(** [save_topic(publication)]: [gcs_client] tells whether the client
    exists, [now] is [datetime.now().isoformat()], [blob] what the blob
    holds, [None] when it does not exist.  The result is the answer and
    the blob afterwards. *)
Definition save_topic (gcs_client : bool) (request_json : request_body)
    (current_user : option (gmap string json)) (now : string)
    (blob : option (gmap string (list (gmap string json))))
    (publication : string)
  : save_response * option (gmap string (list (gmap string json))) :=
  if negb gcs_client then (SaveUnavailable, blob)
  else
    match request_json with
    | BodyRaises => (SaveFailed, blob)
    | BodyOther truth =>
        if truth then (SaveFailed, blob) else (SaveHeadlineRequired, blob)
    | BodyObject topic =>
        if (size topic =? 0)%nat
           || negb (json_truthy (get_field topic "headline"))
        then (SaveHeadlineRequired, blob)
        else
          let user_email := user_email_of current_user in
          let all_topics := default ∅ blob in
          let pub_key := str_lower publication in
          let all_topics :=
            match all_topics !! pub_key with
            | Some _ => all_topics
            | None => <[pub_key := []]> all_topics
            end in
          let saved := default [] (all_topics !! pub_key) in
          if existsb
               (λ t, json_eq (get_field t "headline")
                       (get_field topic "headline")) saved
          then (SaveAlreadySaved, blob)
          else
            let topic := with_metadata topic now user_email pub_key in
            (Saved topic, Some (<[pub_key := saved ++ [topic]]> all_topics))
    end.

(** [list_saved_topics(publication)]: the list in the field [topics] of
    the answer. *)
Definition list_saved_topics (gcs_client : bool)
    (blob : option (gmap string (list (gmap string json))))
    (publication : string) : list (gmap string json) :=
  if negb gcs_client then []
  else
    match blob with
    | None => []
    | Some all_topics => default [] (all_topics !! str_lower publication)
    end.

(** [delete_saved_topic(publication, index)]: the blob afterwards; the
    answer is success in every case.  The route only accepts an [index]
    that is a natural number. *)
Definition delete_saved_topic (gcs_client : bool)
    (blob : option (gmap string (list (gmap string json))))
    (publication : string) (index : nat)
  : option (gmap string (list (gmap string json))) :=
  if negb gcs_client then blob
  else
    match blob with
    | None => blob
    | Some all_topics =>
        let pub_key := str_lower publication in
        match all_topics !! pub_key with
        | Some saved =>
            if (index <? length saved)%nat
            then Some (<[pub_key := delete index saved]> all_topics)
            else blob
        | None => blob
        end
    end.

(** *** How a save that succeeds changes the blob *)

Lemma save_topic_Saved gcs_client request_json current_user now blob
    publication t blob' :
  save_topic gcs_client request_json current_user now blob publication
    = (Saved t, blob') →
  ∃ topic,
    gcs_client = true ∧ request_json = BodyObject topic ∧
    (size topic =? 0)%nat = false ∧
    json_truthy (get_field topic "headline") = true ∧
    existsb (λ t0, json_eq (get_field t0 "headline")
                     (get_field topic "headline"))
      (list_saved_topics true blob publication) = false ∧
    t = with_metadata topic now (user_email_of current_user)
          (str_lower publication) ∧
    blob' = Some (<[str_lower publication :=
                     list_saved_topics true blob publication ++ [t]]>
                    (default ∅ blob)).
Proof.
  unfold save_topic, list_saved_topics. simpl.
  destruct gcs_client; simpl; [|done].
  destruct request_json as [|topic|[]]; try done.
  destruct (size topic =? 0)%nat eqn:Hsz; simpl; [done|].
  destruct (json_truthy (get_field topic "headline")) eqn:Hh; simpl; [|done].
  assert (default [] (default ∅ blob !! str_lower publication) =
          match blob with
          | Some all_topics => default [] (all_topics !! str_lower publication)
          | None => []
          end) as Hlist.
  { destruct blob; simpl; [done|]. by rewrite lookup_empty. }
  destruct (default ∅ blob !! str_lower publication) as [saved|] eqn:Hk;
    simpl in *.
  - rewrite Hk. simpl. rewrite <- Hlist.
    destruct (existsb _ saved) eqn:Hex; [done|].
    intros [= <- <-]. exists topic. by split_and!.
  - rewrite lookup_insert_eq. simpl. rewrite <- Hlist. simpl.
    intros [= <- <-]. exists topic. split_and!; try done.
    by rewrite insert_insert_eq.
Qed.

Lemma list_after_insert all_topics key saved publication :
  list_saved_topics true (Some (<[key := saved]> all_topics)) publication =
  if decide (key = str_lower publication) then saved
  else list_saved_topics true (Some all_topics) publication.
Proof.
  unfold list_saved_topics. simpl. rewrite lookup_insert.
  by case_decide.
Qed.

Lemma list_default_blob blob publication :
  list_saved_topics true (Some (default ∅ blob)) publication =
  list_saved_topics true blob publication.
Proof.
  unfold list_saved_topics. simpl. destruct blob; simpl; [done|].
  by rewrite lookup_empty.
Qed.

Lemma size_lookup_Some (d : gmap string json) key v :
  d !! key = Some v → (size d =? 0)%nat = false.
Proof.
  intros Hd. apply Nat.eqb_neq. intros Hs%map_size_empty_iff.
  by rewrite Hs, lookup_empty in Hd.
Qed.

Lemma save_topic_succeeds topic h current_user now blob publication :
  topic !! "headline" = Some h →
  json_truthy h = true →
  existsb (λ t, json_eq (get_field t "headline") h)
    (list_saved_topics true blob publication) = false →
  save_topic true (BodyObject topic) current_user now blob publication =
  (Saved (with_metadata topic now (user_email_of current_user)
            (str_lower publication)),
   Some (<[str_lower publication :=
            list_saved_topics true blob publication ++
              [with_metadata topic now (user_email_of current_user)
                 (str_lower publication)]]>
           (default ∅ blob))).
Proof.
  intros Hh Ht Hex.
  assert (get_field topic "headline" = h) as Hg
    by (unfold get_field; by rewrite Hh).
  unfold save_topic. simpl.
  rewrite (size_lookup_Some _ _ _ Hh), Hg, Ht. simpl.
  rewrite <- (list_default_blob blob) in Hex |- *.
  unfold list_saved_topics in Hex |- *. simpl in Hex |- *.
  destruct (default ∅ blob !! str_lower publication) as [saved|] eqn:Hk;
    simpl in *.
  - rewrite Hk. simpl. by rewrite Hex.
  - rewrite lookup_insert_eq. simpl. by rewrite insert_insert_eq.
Qed.

Lemma with_metadata_headline t now user_email pub_key :
  get_field (with_metadata t now user_email pub_key) "headline" =
  get_field t "headline".
Proof.
  unfold get_field, with_metadata. by rewrite !lookup_insert_ne.
Qed.

Lemma existsb_false_elem_of {A} (f : A → bool) (l : list A) x :
  existsb f l = false → x ∈ l → f x = false.
Proof.
  intros Hex Hx. destruct (f x) eqn:Hf; [|done].
  assert (existsb f l = true) as Ht; [|congruence].
  apply existsb_exists. exists x. split; [by apply list_elem_of_In | done].
Qed.

(** *** Properties of the three routes *)

(** [save_topic] writes only when it answers with success: with any other
    answer (no client, no headline, headline already saved, an exception)
    the blob is as it was. *)
Theorem save_refused_keeps_blob gcs_client request_json current_user now
    blob publication :
  (∃ t, (save_topic gcs_client request_json current_user now blob
           publication).1 = Saved t) ∨
  (save_topic gcs_client request_json current_user now blob publication).2
    = blob.
Proof.
  unfold save_topic. destruct gcs_client; simpl; [|by right].
  destruct request_json as [|topic|[]]; simpl; try by right.
  destruct (_ || _); simpl; [by right|].
  destruct (existsb _ _); simpl; [by right | left; eauto].
Qed.



(** *** Other publications, deleting, and what the lists keep *)

Lemma save_topic_cases gcs_client request_json current_user now blob
    publication :
  (save_topic gcs_client request_json current_user now blob publication).2
    = blob ∨
  ∃ t, save_topic gcs_client request_json current_user now blob publication
       = (Saved t,
          Some (<[str_lower publication :=
                   list_saved_topics true blob publication ++ [t]]>
                  (default ∅ blob))) ∧
       t !! "publication" = Some (jstr (str_lower publication)) ∧
       existsb (λ t0, json_eq (get_field t0 "headline")
                        (get_field t "headline"))
         (list_saved_topics true blob publication) = false.
Proof.
  destruct (save_topic gcs_client request_json current_user now blob
              publication) as [resp blob'] eqn:Hsave.
  destruct resp as [| | |t|];
    try (left; revert Hsave; unfold save_topic;
         repeat case_match; by intros [= <-]).
  right. exists t.
  destruct (save_topic_Saved _ _ _ _ _ _ _ _ Hsave)
    as (topic & _ & _ & _ & _ & Hex & -> & ->).
  split_and!; [done | apply lookup_insert_eq |].
  by rewrite with_metadata_headline.
Qed.

Lemma delete_saved_topic_cases gcs_client blob publication index :
  ((gcs_client = false ∨
    (length (list_saved_topics true blob publication) ≤ index)%nat) ∧
   delete_saved_topic gcs_client blob publication index = blob) ∨
  ((index < length (list_saved_topics true blob publication))%nat ∧
   delete_saved_topic gcs_client blob publication index =
   Some (<[str_lower publication :=
            delete index (list_saved_topics true blob publication)]>
           (default ∅ blob))).
Proof.
  unfold delete_saved_topic, list_saved_topics. simpl.
  destruct gcs_client; simpl; [|left; by split; [left|]].
  destruct blob as [all_topics|]; simpl; [|left; split; [right; lia|done]].
  destruct (all_topics !! str_lower publication) as [saved|]; simpl;
    [|left; split; [right; lia|done]].
  destruct (Nat.ltb_spec index (length saved)).
  - right. by split.
  - left. split; [by right | done].
Qed.

(** Saving for one publication leaves the list of every other
    publication key as it was, whatever the answer. *)
Theorem save_keeps_other_publications gcs_client request_json current_user
    now blob publication publication2 :
  str_lower publication ≠ str_lower publication2 →
  list_saved_topics true
    (save_topic gcs_client request_json current_user now blob publication).2
    publication2
  = list_saved_topics true blob publication2.
Proof.
  intros Hne.
  destruct (save_topic_cases gcs_client request_json current_user now blob
              publication) as [->|(t & -> & _)]; [done|].
  simpl. by rewrite list_after_insert, decide_False, list_default_blob.
Qed.

(** Deleting at an index that the list of the publication does not have
    (also when the publication has no list or the blob does not exist)
    leaves the blob as it was. *)
Theorem delete_out_of_range gcs_client blob publication index :
  (length (list_saved_topics true blob publication) ≤ index)%nat →
  delete_saved_topic gcs_client blob publication index = blob.
Proof.
  intros Hle.
  destruct (delete_saved_topic_cases gcs_client blob publication index)
    as [[_ ->]|[Hlt _]]; [done | lia].
Qed.



(** No two topics of the list have equal headlines. *)
Definition distinct_headlines (l : list (gmap string json)) : Prop :=
  ∀ i j ti tj,
    (i < j)%nat → l !! i = Some ti → l !! j = Some tj →
    json_eq (get_field ti "headline") (get_field tj "headline") = false.

Lemma distinct_headlines_snoc l t :
  distinct_headlines l →
  existsb (λ t0, json_eq (get_field t0 "headline") (get_field t "headline")) l
    = false →
  distinct_headlines (l ++ [t]).
Proof.
  intros Hd Hex i j ti tj Hij Hi Hj.
  assert (j < length (l ++ [t]))%nat as Hlen
    by (eapply lookup_lt_Some; eauto).
  rewrite length_app in Hlen. simpl in Hlen.
  rewrite lookup_app_l in Hi by lia.
  destruct (decide (j < length l)%nat).
  - rewrite lookup_app_l in Hj by done. exact (Hd i j ti tj Hij Hi Hj).
  - rewrite lookup_app_r in Hj by lia.
    replace (j - length l)%nat with 0%nat in Hj by lia.
    injection Hj as <-.
    apply (existsb_false_elem_of _ _ ti Hex).
    apply list_elem_of_lookup. eauto.
Qed.

Lemma distinct_headlines_delete l index :
  distinct_headlines l → distinct_headlines (delete index l).
Proof.
  intros Hd i j ti tj Hij Hi Hj.
  rewrite list_lookup_delete in Hi, Hj.
  apply (Hd (if decide (i < index)%nat then i else S i)
            (if decide (j < index)%nat then j else S j) ti tj);
    repeat case_decide; first [lia | done].
Qed.

(** The lists never get two topics with equal headlines: if no list of
    the blob has two such topics, none has after [save_topic] nor after
    [delete_saved_topic], whatever the inputs. *)
Theorem distinct_headlines_kept gcs_client request_json current_user now
    blob publication index :
  (∀ publication2,
     distinct_headlines (list_saved_topics true blob publication2)) →
  (∀ publication2,
     distinct_headlines
       (list_saved_topics true
          (save_topic gcs_client request_json current_user now blob
             publication).2 publication2)) ∧
  (∀ publication2,
     distinct_headlines
       (list_saved_topics true
          (delete_saved_topic gcs_client blob publication index)
          publication2)).
Proof.
  intros Hd. split; intros publication2.
  - destruct (save_topic_cases gcs_client request_json current_user now blob
                publication) as [->|(t & -> & _ & Hex)]; [done|].
    simpl. rewrite list_after_insert. case_decide.
    + by apply distinct_headlines_snoc.
    + by rewrite list_default_blob.
  - destruct (delete_saved_topic_cases gcs_client blob publication index)
      as [[_ ->]|[_ ->]]; [done|].
    rewrite list_after_insert. case_decide.
    + by apply distinct_headlines_delete.
    + by rewrite list_default_blob.
Qed.

(** Every topic listed for a publication carries the key of that
    publication in its field [publication]. *)
Definition tagged (blob : option (gmap string (list (gmap string json))))
  : Prop :=
  ∀ publication t,
    t ∈ list_saved_topics true blob publication →
    t !! "publication" = Some (jstr (str_lower publication)).

(** The field [publication] of a saved topic always names the list it is
    in: this holds after [save_topic] and after [delete_saved_topic] when
    it held before. *)
Theorem tagged_kept gcs_client request_json current_user now blob
    publication index :
  tagged blob →
  tagged (save_topic gcs_client request_json current_user now blob
            publication).2 ∧
  tagged (delete_saved_topic gcs_client blob publication index).
Proof.
  intros Htag. split; intros publication2 t0.
  - destruct (save_topic_cases gcs_client request_json current_user now blob
                publication) as [->|(t & -> & Hpub & _)]; [apply Htag|].
    simpl. rewrite list_after_insert. case_decide as Hk.
    + intros [Hin| ->%list_elem_of_singleton]%elem_of_app.
      * rewrite <- Hk. by apply Htag.
      * by rewrite <- Hk.
    + rewrite list_default_blob. apply Htag.
  - destruct (delete_saved_topic_cases gcs_client blob publication index)
      as [[_ ->]|[_ ->]]; [apply Htag|].
    rewrite list_after_insert. case_decide as Hk.
    + intros Hin. rewrite <- Hk. apply Htag.
      by eapply list_elem_of_delete_inv.
    + rewrite list_default_blob. apply Htag.
Qed.

End SavedTopics.

Global Arguments BodyRaises {json}.
Global Arguments BodyObject {json} t.
Global Arguments BodyOther {json} truth.
Global Arguments SaveUnavailable {json}.
Global Arguments SaveHeadlineRequired {json}.
Global Arguments SaveAlreadySaved {json}.
Global Arguments Saved {json} t.
Global Arguments SaveFailed {json}.

(** *** The routes on JSON values that are [null] or strings *)

Definition str_eq (a b : option string) : bool := bool_decide (a = b).

Definition save_topic_str :=
  save_topic (option string) None Some truthy_opt str_eq ascii_lower.

Definition list_saved_topics_str :=
  list_saved_topics (option string) ascii_lower.

Definition delete_saved_topic_str :=
  delete_saved_topic (option string) ascii_lower.

(** A topic as the front end sends it, and the same topic as saved for
    Forbes by a user without session. *)
Definition topic_sent : gmap string (option string) :=
  <["headline" := Some "Why trust matters"]> (<["angle" := Some "trust"]> ∅).

Definition topic_saved : gmap string (option string) :=
  with_metadata (option string) Some topic_sent "2026-05-01T10:00:00"
    (Some "Unknown") "forbes".

Definition blob_saved : option (gmap string (list (gmap string (option string)))) :=
  Some (<["forbes" := [topic_saved]]> ∅).



Lemma save_keeps_other_publications_witness :
  ascii_lower "Entrepreneur" ≠ ascii_lower "Forbes" ∧
  list_saved_topics_str true
    (save_topic_str true (BodyObject topic_sent) None "2026-06-01T09:00:00"
       blob_saved "Entrepreneur").2 "Forbes"
  = list_saved_topics_str true blob_saved "Forbes".
Proof.
  assert (ascii_lower "Entrepreneur" ≠ ascii_lower "Forbes") as Hne
    by (vm_compute; discriminate).
  split; [exact Hne|].
  apply (save_keeps_other_publications (option string) None Some truthy_opt
           str_eq ascii_lower true (BodyObject topic_sent) None
           "2026-06-01T09:00:00" blob_saved "Entrepreneur" "Forbes" Hne).
Defined.

Lemma delete_out_of_range_witness :
  (length (list_saved_topics_str true blob_saved "Forbes") ≤ 1)%nat ∧
  delete_saved_topic_str true blob_saved "Forbes" 1 = blob_saved.
Proof.
  assert (length (list_saved_topics_str true blob_saved "Forbes") ≤ 1)%nat
    as Hle by (vm_compute; lia).
  split; [exact Hle|].
  apply (delete_out_of_range (option string) ascii_lower true blob_saved
           "Forbes" 1 Hle).
Defined.



Definition topic_other : gmap string (option string) :=
  <["headline" := Some "Hiring slowly"]> ∅.

Lemma blob_saved_list publication :
  list_saved_topics_str true blob_saved publication =
  if decide ("forbes" = ascii_lower publication) then [topic_saved] else [].
Proof.
  unfold list_saved_topics_str, blob_saved. rewrite list_after_insert.
  case_decide; [done|]. unfold list_saved_topics. simpl.
  by rewrite lookup_empty.
Qed.

Lemma blob_saved_distinct publication2 :
  distinct_headlines (option string) None str_eq
    (list_saved_topics_str true blob_saved publication2).
Proof.
  rewrite blob_saved_list. intros i j ti tj Hij Hi Hj.
  case_decide; [|by rewrite lookup_nil in Hj].
  destruct j as [|j]; [lia|]. simpl in Hj. by rewrite lookup_nil in Hj.
Qed.

Lemma blob_saved_tagged : tagged (option string) Some ascii_lower blob_saved.
Proof.
  intros publication t.
  change (list_saved_topics (option string) ascii_lower true blob_saved
            publication)
    with (list_saved_topics_str true blob_saved publication).
  rewrite blob_saved_list. case_decide as Hk.
  - intros ->%list_elem_of_singleton. rewrite <- Hk. vm_compute. reflexivity.
  - by intros ?%elem_of_nil.
Qed.

Lemma distinct_headlines_kept_witness :
  (∀ publication2,
     distinct_headlines (option string) None str_eq
       (list_saved_topics_str true blob_saved publication2)) ∧
  (∀ publication2,
     distinct_headlines (option string) None str_eq
       (list_saved_topics_str true
          (save_topic_str true (BodyObject topic_other) None
             "2026-06-01T09:00:00" blob_saved "Forbes").2 publication2)) ∧
  (∀ publication2,
     distinct_headlines (option string) None str_eq
       (list_saved_topics_str true
          (delete_saved_topic_str true blob_saved "Forbes" 0) publication2)).
Proof.
  split; [exact blob_saved_distinct|].
  apply (distinct_headlines_kept (option string) None Some truthy_opt str_eq
           ascii_lower true (BodyObject topic_other) None
           "2026-06-01T09:00:00" blob_saved "Forbes" 0 blob_saved_distinct).
Defined.

Lemma tagged_kept_witness :
  tagged (option string) Some ascii_lower blob_saved ∧
  tagged (option string) Some ascii_lower
    (save_topic_str true (BodyObject topic_other) None "2026-06-01T09:00:00"
       blob_saved "Forbes").2 ∧
  tagged (option string) Some ascii_lower
    (delete_saved_topic_str true blob_saved "Forbes" 0).
Proof.
  split; [exact blob_saved_tagged|].
  apply (tagged_kept (option string) None Some truthy_opt str_eq
           ascii_lower true (BodyObject topic_other) None
           "2026-06-01T09:00:00" blob_saved "Forbes" 0 blob_saved_tagged).
Defined.

(** * Drafts and completed projects

    [save_draft], [get_draft], [delete_draft] and [complete_project] keep
    one blob per draft, [drafts/<id>.json], and move it to
    [completed/<id>.json].  The bucket is a map from blob names to the JSON
    objects the blobs hold, and JSON values are abstract.  As for the
    saved topics the calls to the store are taken to succeed in the routes
    that write last or not at all; [complete_project] writes and then
    deletes, and there a call that raises is part of the model. *)

Lemma append_inj_r (a b c : string) : a +:+ c = b +:+ c → a = b.
Proof.
  revert b. induction a as [|x a IH]; intros [|y b] H; [done | | |].
  - apply (f_equal String.length) in H.
    rewrite !length_append in H. simpl in H. lia.
  - apply (f_equal String.length) in H.
    rewrite !length_append in H. simpl in H. lia.
  - rewrite !append_cons in H. injection H as -> H. f_equal. by apply IH.
Qed.

(** The names of the two blobs of a draft. *)
Definition draft_blob_name (draft_id : string) : string :=
  "drafts/" +:+ draft_id +:+ ".json".

Definition completed_blob_name (draft_id : string) : string :=
  "completed/" +:+ draft_id +:+ ".json".

Lemma draft_blob_name_inj a b : draft_blob_name a = draft_blob_name b → a = b.
Proof.
  unfold draft_blob_name. intros H%(inj (String.app "drafts/")).
  by apply append_inj_r in H.
Qed.

Lemma completed_not_draft a b : completed_blob_name a ≠ draft_blob_name b.
Proof. unfold completed_blob_name, draft_blob_name. by rewrite !append_cons. Qed.

(** Which call to the store raises while a route runs, if any: reading
    a blob ([exists], [download_as_text]), [upload_from_string], or
    [delete]. *)
Inductive store_fault :=
  | NoFault
  | FaultRead
  | FaultUpload
  | FaultDelete.

Section Drafts.

Variable json : Type.
Variable jnull : json.
Variable jstr : string → json.
(** The number [1] and the empty object [{}]. *)
Variable jone : json.
Variable jempty : json.
Variable json_truthy : json → bool.
(** The text an f-string writes for a JSON value. *)
Variable json_format : json → string.

(** The answers of [save_draft]: status 503; success with the draft id;
    status 500. *)
Inductive save_draft_response :=
  | DraftUnavailable
  | DraftSaved (draft_id : json)
  | DraftFailed.

(** The answers of [get_draft]: status 503; status 404; the draft. *)
Inductive get_draft_response :=
  | GetUnavailable
  | GetNotFound
  | GetFound (draft : gmap string json).

(** The answers of [complete_project]: status 503; status 400 (draft id
    required); status 404; success with the draft id; status 500. *)
Inductive complete_response :=
  | CompleteUnavailable
  | CompleteIdRequired
  | CompleteNotFound
  | Completed (draft_id : json)
  | CompleteFailed.

(** [current_user.get('email', 'Unknown') if current_user else
    data.get('user_email', 'Unknown')]. *)
Definition draft_user_email (current_user : option (gmap string json))
    (data : gmap string json) : json :=
  match current_user with
  | Some user =>
      if (size user =? 0)%nat
      then default (jstr "Unknown") (data !! "user_email")
      else default (jstr "Unknown") (user !! "email")
  | None => default (jstr "Unknown") (data !! "user_email")
  end.

(** [save_draft()]; [uuid] is [str(uuid.uuid4())], and [now_created] and
    [now_updated] are the two readings of [datetime.now().isoformat()], in
    the order the code takes them. *)
Definition save_draft (gcs_client : bool) (request_json : request_body json)
    (current_user : option (gmap string json))
    (uuid now_created now_updated : string)
    (bucket : gmap string (gmap string json))
  : save_draft_response * gmap string (gmap string json) :=
  if negb gcs_client then (DraftUnavailable, bucket)
  else
    match request_json with
    | BodyRaises | BodyOther _ => (DraftFailed, bucket)
    | BodyObject data =>
        let draft_id :=
          if json_truthy (get_field json jnull data "draft_id")
          then get_field json jnull data "draft_id" else jstr uuid in
        let user_email := draft_user_email current_user data in
        let existing_draft : gmap string json := ∅ in
        let blob_name := draft_blob_name (json_format draft_id) in
        let existing_draft :=
          match bucket !! blob_name with
          | Some content => content
          | None => existing_draft
          end in
        let draft : gmap string json :=
          <["updated_at" := jstr now_updated]>
          (<["created_by" := default user_email (existing_draft !! "created_by")]>
          (<["created_at" :=
               default (jstr now_created) (existing_draft !! "created_at")]>
          (<["data" := default jempty (data !! "data")]>
          (<["current_step" := default jone (data !! "current_step")]>
          (<["year" := get_field json jnull data "year"]>
          (<["month" := get_field json jnull data "month"]>
          (<["publication" := get_field json jnull data "publication"]>
          (<["id" := draft_id]> ∅)))))))) in
        (DraftSaved draft_id, <[blob_name := draft]> bucket)
    end.

(** [get_draft(draft_id)]. *)
Definition get_draft (gcs_client : bool)
    (bucket : gmap string (gmap string json)) (draft_id : string)
  : get_draft_response :=
  if negb gcs_client then GetUnavailable
  else
    match bucket !! draft_blob_name draft_id with
    | None => GetNotFound
    | Some draft => GetFound draft
    end.

(** [delete_draft(draft_id)]: the bucket afterwards; the answer is success
    in every case. *)
Definition delete_draft (gcs_client : bool)
    (bucket : gmap string (gmap string json)) (draft_id : string)
  : gmap string (gmap string json) :=
  if negb gcs_client then bucket
  else
    match bucket !! draft_blob_name draft_id with
    | Some _ => delete (draft_blob_name draft_id) bucket
    | None => bucket
    end.

(** [complete_project()].  Here a call to the store may raise, and
    [fault] says which one does: after the upload to [completed/] the
    deletion from [drafts/] can still raise, and the answer is then the one
    for an exception although the copy is written. *)
Definition complete_project (gcs_client : bool)
    (request_json : request_body json)
    (current_user : option (gmap string json)) (now : string)
    (fault : store_fault)
    (bucket : gmap string (gmap string json))
  : complete_response * gmap string (gmap string json) :=
  if negb gcs_client then (CompleteUnavailable, bucket)
  else
    match request_json with
    | BodyRaises | BodyOther _ => (CompleteFailed, bucket)
    | BodyObject data =>
        let draft_id := get_field json jnull data "draft_id" in
        if negb (json_truthy draft_id) then (CompleteIdRequired, bucket)
        else
          let user_email := user_email_of json jstr current_user in
          let source := draft_blob_name (json_format draft_id) in
          match fault with
          | FaultRead => (CompleteFailed, bucket)
          | _ =>
              match bucket !! source with
              | None => (CompleteNotFound, bucket)
              | Some draft =>
                  let draft :=
                    <["completed_by" := user_email]>
                      (<["completed_at" := jstr now]> draft) in
                  let dest := completed_blob_name (json_format draft_id) in
                  match fault with
                  | FaultUpload => (CompleteFailed, bucket)
                  | FaultDelete => (CompleteFailed, <[dest := draft]> bucket)
                  | _ =>
                      (Completed draft_id,
                       delete source (<[dest := draft]> bucket))
                  end
              end
          end
    end.

(** The id under which [save_draft] stores the draft sent as [data]. *)
Definition saved_id (data : gmap string json) (uuid : string) : json :=
  if json_truthy (get_field json jnull data "draft_id")
  then get_field json jnull data "draft_id" else jstr uuid.

Lemma save_draft_saved data current_user uuid now_created now_updated bucket :
  ∃ draft,
    save_draft true (BodyObject data) current_user uuid now_created
      now_updated bucket
    = (DraftSaved (saved_id data uuid),
       <[draft_blob_name (json_format (saved_id data uuid)) := draft]>
         bucket) ∧
    draft !! "id" = Some (saved_id data uuid) ∧
    draft !! "publication" = Some (get_field json jnull data "publication") ∧
    draft !! "updated_at" = Some (jstr now_updated) ∧
    draft !! "created_at" =
      Some (default (jstr now_created)
              (default ∅
                 (bucket !! draft_blob_name (json_format (saved_id data uuid)))
               !! "created_at")) ∧
    draft !! "created_by" =
      Some (default (draft_user_email current_user data)
              (default ∅
                 (bucket !! draft_blob_name (json_format (saved_id data uuid)))
               !! "created_by")).
Proof.
  unfold save_draft, saved_id. simpl.
  set (id := if json_truthy (get_field json jnull data "draft_id")
             then get_field json jnull data "draft_id" else jstr uuid).
  assert (match bucket !! draft_blob_name (json_format id) with
          | Some content => content
          | None => ∅
          end = default ∅ (bucket !! draft_blob_name (json_format id))) as ->.
  { by destruct (bucket !! draft_blob_name (json_format id)). }
  eexists. split; [reflexivity|].
  split_and!; repeat (rewrite lookup_insert_ne by done);
    by rewrite lookup_insert_eq.
Qed.



(** [save_draft] changes at most one blob, the one of the draft whose id
    it answers with; every other blob, and every blob when the answer is
    not a success, holds what it held. *)
Theorem save_draft_touches_one_blob gcs_client request_json current_user
    uuid now_created now_updated bucket name :
  (save_draft gcs_client request_json current_user uuid now_created
     now_updated bucket).2 !! name = bucket !! name ∨
  ∃ draft_id,
    (save_draft gcs_client request_json current_user uuid now_created
       now_updated bucket).1 = DraftSaved draft_id ∧
    name = draft_blob_name (json_format draft_id).
Proof.
  destruct gcs_client; [|by left].
  destruct request_json as [|data|truth]; [by left | | by left].
  destruct (save_draft_saved data current_user uuid now_created now_updated
              bucket) as (draft & -> & _). simpl.
  destruct (decide (name = draft_blob_name (json_format (saved_id data uuid))))
    as [->|Hne]; [right; eauto|].
  left. by rewrite lookup_insert_ne.
Qed.



End Drafts.

Global Arguments DraftUnavailable {json}.
Global Arguments DraftSaved {json} draft_id.
Global Arguments DraftFailed {json}.
Global Arguments GetUnavailable {json}.
Global Arguments GetNotFound {json}.
Global Arguments GetFound {json} draft.
Global Arguments CompleteUnavailable {json}.
Global Arguments CompleteIdRequired {json}.
Global Arguments CompleteNotFound {json}.
Global Arguments Completed {json} draft_id.
Global Arguments CompleteFailed {json}.

(** *** The routes on JSON values that are [null], strings, integers or
    the empty object *)

Inductive jval :=
  | JNull
  | JStr (s : string)
  | JInt (n : Z)
  | JEmptyObject.

Definition jval_truthy (v : jval) : bool :=
  match v with
  | JNull | JEmptyObject => false
  | JStr s => truthy s
  | JInt n => negb (n =? 0)
  end.

(** The text of [f"{v}"]. *)
Definition jval_format (v : jval) : string :=
  match v with
  | JNull => "None"
  | JStr s => s
  | JInt n => pretty n
  | JEmptyObject => "{}"
  end.

Definition save_draft_jval :=
  save_draft jval JNull JStr (JInt 1) JEmptyObject jval_truthy jval_format.

Definition complete_project_jval :=
  complete_project jval JNull JStr jval_truthy jval_format.

(** A first save without id, by a user of the session, and a second save
    of the same draft sent without session. *)
Definition draft_sent : gmap string jval :=
  <["publication" := JStr "forbes"]> (<["current_step" := JInt 2]> ∅).

Definition draft_sent_again : gmap string jval :=
  <["draft_id" := JStr "d1"]>
    (<["publication" := JStr "forbes"]> (<["current_step" := JInt 3]> ∅)).

Definition user_ann : gmap string jval := <["email" := JStr "ann@brite.co"]> ∅.

Definition bucket_saved : gmap string (gmap string jval) :=
  (save_draft_jval true (BodyObject draft_sent) (Some user_ann) "d1"
     "2026-05-01T10:00:00" "2026-05-01T10:00:01" ∅).2.



